(** * Basketball Shot Form Analyzer: the metrics pipeline of [app.js]

    A shallow embedding of the analysis code of [src/app.js] and the
    properties of its geometry, rolling windows, scoring laws, composite
    score and feedback classifier.

    Numbers.  A JavaScript number is modelled as a real number ([R]):
    [Math.abs] is [Rabs], [Math.max] is [Rmax], [Math.PI] is [PI].  In the
    geometry, the scoring functions and the mean the arithmetic operators are
    the exact ones; what is proved of them (ranges, orderings, which values
    are stored and averaged) does not rest on the last place of a result.  The
    composite score is rounded to a whole number, so there the last place
    matters, and its products and sums are those of double arithmetic
    ([Double.round]).  [NaN] and the infinities are outside this model.  A
    difference [a - b] of two doubles is never the negative zero, so the
    arguments the code passes to [Math.atan2] need no signed zero.

    Values.  A landmark read from the array is [Some l] or [None], the
    latter standing for [undefined] or [null]; reading a property of either
    throws a [TypeError].  An array is a list of slots, a slot being an
    element or a hole.

    State.  The globals [analysisData] and [frameCount] and the DOM nodes the
    code writes to form the record [State]; the functions that touch them are
    computations in a state-and-exception monad [M]. *)

From Stdlib Require Import Reals Lra Lia List ZArith Bool.
Import ListNotations.

Open Scope R_scope.

(** ** JavaScript's [Math] functions used by the code *)

Module JsMath.

(** [Math.atan2(y, x)]: the angle of the point [(x, y)], in (-PI, PI];
    [Math.atan2(0, 0)] is [0].  This is the exact angle; the library returns
    a double next to it. *)
Definition atan2 (y x : R) : R :=
  if Rlt_dec 0 x then atan (y / x)
  else if Rlt_dec x 0 then
    if Rle_dec 0 y then atan (y / x) + PI else atan (y / x) - PI
  else if Rlt_dec 0 y then PI / 2
  else if Rlt_dec y 0 then - (PI / 2)
  else 0.

(** [Math.round(x)]: the nearest integer, a tie going towards +infinity. *)
Definition round (x : R) : R := IZR (Zfloor (x + / 2)).

Definition abs : R -> R := Rabs.
Definition max : R -> R -> R := Rmax.

(** The comparison operators [<=], [<], [>=] and [>] on numbers. *)
Definition leb (a b : R) : bool := if Rle_dec a b then true else false.
Definition ltb (a b : R) : bool := if Rlt_dec a b then true else false.
Definition geb (a b : R) : bool := if Rge_dec a b then true else false.
Definition gtb (a b : R) : bool := if Rgt_dec a b then true else false.

End JsMath.

(** ** Double arithmetic

    The value a binary64 operation returns for the exact result [x]: [x]
    rounded to the nearest multiple of its unit in the last place, a tie
    going to the even multiple.  The unit is [2 ^ (e - 52)] where
    [2 ^ e <= |x| < 2 ^ (e + 1)], and [2 ^ -1074] below [2 ^ -1022].
    Overflow to an infinity is left out. *)

Module Double.

(** The exponent of the unit in the last place of [x]. *)
Definition ulpExponent (x : R) : Z :=
  Z.max (Zfloor (ln (Rabs x) / ln 2) - 52) (-1074).

(** The integer nearest to [r], the even one of two that are equally near. *)
Definition nearestEven (r : R) : Z :=
  let f := Zfloor r in
  if Rlt_dec (r - IZR f) (/ 2) then f
  else if Rlt_dec (/ 2) (r - IZR f) then (f + 1)%Z
  else if Z.even f then f else (f + 1)%Z.

Definition round (x : R) : R :=
  IZR (nearestEven (x / powerRZ 2 (ulpExponent x))) * powerRZ 2 (ulpExponent x).

(** The operators [*] and [+] on doubles. *)
Definition mul (a b : R) : R := round (a * b).
Definition add (a b : R) : R := round (a + b).

(** The doubles that the literals [0.3] and [0.2] denote:
    5404319552844595 / 2^54 and 3602879701896397 / 2^54. *)
Definition d0_3 : R := 5404319552844595 / 18014398509481984.
Definition d0_2 : R := 3602879701896397 / 18014398509481984.

End Double.

(** ** Values and exceptions *)

Record Landmark : Type := mkLandmark { x : R; y : R }.

Inductive JsError : Type := TypeError.

Inductive Outcome (A : Type) : Type :=
| Ok (a : A)
| Throw (e : JsError).
Arguments Ok {A} a.
Arguments Throw {A} e.

Definition obind {A B : Type} (o : Outcome A) (k : A -> Outcome B) : Outcome B :=
  match o with
  | Ok a => k a
  | Throw e => Throw e
  end.

Declare Scope outcome_scope.
Delimit Scope outcome_scope with outcome.
Notation "v <- o ;; k" := (obind o (fun v => k))
  (at level 61, o at next level, right associativity) : outcome_scope.

(** [p.x] and [p.y] for a value [p] that may be [undefined]. *)
Definition prop_x (p : option Landmark) : Outcome R :=
  match p with
  | Some l => Ok (x l)
  | None => Throw TypeError
  end.

Definition prop_y (p : option Landmark) : Outcome R :=
  match p with
  | Some l => Ok (y l)
  | None => Throw TypeError
  end.

(** A position of an array: a hole, which the array has no property for, or
    an element, which is a landmark ([Some l]) or [undefined] or [null]
    ([None]). *)
Inductive Slot : Type :=
| Hole
| Elem (v : option Landmark).

(** [landmarks[i]]: [undefined] past the end of the array, at a hole, or
    where the element itself is [undefined]; [null] where it is [null].  The
    code only tests such a value for truth and reads its properties, and
    [undefined] and [null] behave alike there. *)
Definition index (landmarks : list Slot) (i : nat) : option Landmark :=
  match nth_error landmarks i with
  | Some (Elem p) => p
  | Some Hole => None
  | None => None
  end.

(** ** Geometry *)

Section Geometry.
Local Open Scope outcome_scope.

(** The arithmetic of [calculateAngle] on the six coordinates. *)
Definition angleAt (x1 y1 x2 y2 x3 y3 : R) : R :=
  let radians := JsMath.atan2 (y3 - y2) (x3 - x2) -
                 JsMath.atan2 (y1 - y2) (x1 - x2) in
  let angle := JsMath.abs (radians * 180 / PI) in
  if JsMath.gtb angle 180 then 360 - angle else angle.

Definition calculateAngle (point1 point2 point3 : option Landmark) : Outcome R :=
  y3 <- prop_y point3 ;; y2 <- prop_y point2 ;;
  x3 <- prop_x point3 ;; x2 <- prop_x point2 ;;
  y1 <- prop_y point1 ;; y2' <- prop_y point2 ;;
  x1 <- prop_x point1 ;; x2' <- prop_x point2 ;;
  Ok (angleAt x1 y1 x2 y2 x3 y3).

Definition calculateReleaseAngle (shoulder wrist : option Landmark) : Outcome R :=
  sy <- prop_y shoulder ;; wy <- prop_y wrist ;;
  let deltaY := sy - wy in
  sx <- prop_x shoulder ;; wx <- prop_x wrist ;;
  let deltaX := JsMath.abs (sx - wx) in
  let angle := JsMath.atan2 deltaY deltaX * 180 / PI in
  Ok (JsMath.max 0 angle).

Definition calculateAlignment (leftShoulder rightShoulder : option Landmark) : Outcome R :=
  ly <- prop_y leftShoulder ;; ry <- prop_y rightShoulder ;;
  let shoulderDiff := JsMath.abs (ly - ry) in
  let alignmentScore := JsMath.max 0 (100 - shoulderDiff * 1000) in
  Ok alignmentScore.

End Geometry.

(** ** Scoring functions *)

Definition scoreElbowAngle (angle : R) : R :=
  let optimal := 90 in
  let tolerance := 10 in
  let diff := JsMath.abs (angle - optimal) in
  if JsMath.leb diff tolerance then 100 - diff * 5
  else JsMath.max 0 (50 - (diff - tolerance) * 2).

Definition scoreReleaseHeight (angle : R) : R :=
  if JsMath.geb angle 45 && JsMath.leb angle 60 then 100
  else if JsMath.ltb angle 45 then JsMath.max 0 (angle / 45 * 100)
  else JsMath.max 0 (100 - (angle - 60) * 3).

Definition scoreKneeAngle (angle : R) : R :=
  if JsMath.geb angle 100 && JsMath.leb angle 130 then 100
  else if JsMath.ltb angle 100 then JsMath.max 0 (angle / 100 * 100)
  else JsMath.max 0 (100 - (angle - 130) * 2).

(** [average]: the mean of an array, [0] for the empty one; the sum and the
    quotient are the exact ones. *)
Definition average (arr : list R) : R :=
  if Nat.eqb (length arr) 0 then 0
  else fold_left (fun a b => a + b) arr 0 / INR (length arr).

(** The weighted sum and its rounding, as in [analyzeShootingForm]: the
    four products, then the three sums from left to right, each rounded to a
    double, then [Math.round]. *)
Definition overallScoreOf (elbowScore releaseScore kneeScore alignmentScoreValue : R) : R :=
  JsMath.round
    (Double.add
       (Double.add
          (Double.add (Double.mul elbowScore Double.d0_3)
                      (Double.mul releaseScore Double.d0_3))
          (Double.mul kneeScore Double.d0_2))
       (Double.mul alignmentScoreValue Double.d0_2)).

(** ** The page: what the code writes to the DOM

    The nodes are those [app.js] looks up by id; all of them exist in the
    page.  Texts are kept as the message they carry. *)

Inductive Feedback : Type :=
| FbNoPerson          (* 'No person detected. Step into frame.' *)
| FbStatsReset        (* 'Statistics reset. Continue analyzing...' *)
| FbExcellent         (* 'Excellent form! Your technique is on point!' *)
| FbGood              (* 'Good form! Keep practicing for consistency.' *)
| FbFair              (* 'Fair form. Focus on the metrics highlighted below.' *)
| FbNeedsImprovement. (* 'Needs improvement. Review the technique tips.' *)

Inductive ElbowStatus : Type :=
| ElbowPerfect        (* 'Perfect elbow angle!' *)
| ElbowRaise          (* 'Raise your elbow slightly' *)
| ElbowLower.         (* 'Lower your elbow slightly' *)

Inductive ReleaseStatus : Type :=
| ReleaseOptimal      (* 'Optimal release height!' *)
| ReleaseTooLow       (* 'Release point too low' *)
| ReleaseTooHigh.     (* 'Release point too high' *)

Inductive KneeStatus : Type :=
| KneeGood            (* 'Good knee bend!' *)
| KneeBendMore        (* 'Bend knees more' *)
| KneeTooBent.        (* 'Knees too bent' *)

Inductive AlignmentStatus : Type :=
| AlignmentPerfect    (* 'Perfect alignment!' *)
| AlignmentCheck.     (* 'Check shoulder level' *)

(** The text of a metric display: the dashes or a number. *)
Inductive Display : Type :=
| Dashes
| Shown (v : R).

Inductive Colour : Type := Green | Amber | Red.
Inductive BarClass : Type := good | warning | poor.

Record Ring : Type := mkRing { strokeDashoffset : R; stroke : Colour }.
Record Bar : Type := mkBar { width : R; barClass : BarClass }.

Inductive MetricId : Type :=
| overall_score | elbow_angle | release_height | knee_angle | alignment_score.

Inductive BarId : Type :=
| elbow_bar | release_bar | knee_bar | alignment_bar.

Record Dom : Type := mkDom {
  form_feedback : option Feedback;
  metric : MetricId -> Display;
  score_ring : option Ring;
  bar : BarId -> option Bar;
  elbow_status : option ElbowStatus;
  release_status : option ReleaseStatus;
  knee_status : option KneeStatus;
  alignment_status : option AlignmentStatus
}.

Definition MetricId_eqb (a b : MetricId) : bool :=
  match a, b with
  | overall_score, overall_score | elbow_angle, elbow_angle
  | release_height, release_height | knee_angle, knee_angle
  | alignment_score, alignment_score => true
  | _, _ => false
  end.

Definition BarId_eqb (a b : BarId) : bool :=
  match a, b with
  | elbow_bar, elbow_bar | release_bar, release_bar
  | knee_bar, knee_bar | alignment_bar, alignment_bar => true
  | _, _ => false
  end.

(** ** The analysis state *)

Record AnalysisData : Type := mkAnalysisData {
  elbowAngles : list R;
  releaseHeights : list R;
  kneeAngles : list R;
  alignmentScores : list R
}.

Record State : Type := mkState {
  frameCount : nat;
  analysisData : AnalysisData;
  dom : Dom
}.

Definition emptyData : AnalysisData := mkAnalysisData [] [] [] [].

(** The state when the script has loaded, over the page [d] as served. *)
Definition initialState (d : Dom) : State := mkState 0 emptyData d.

(** ** The state-and-exception monad of the stateful functions *)

Definition M (A : Type) : Type := State -> Outcome A * State.

Definition ret {A : Type} (a : A) : M A := fun st => (Ok a, st).

Definition bind {A B : Type} (m : M A) (k : A -> M B) : M B :=
  fun st =>
    match m st with
    | (Ok a, st') => k a st'
    | (Throw e, st') => (Throw e, st')
    end.

Definition lift {A : Type} (o : Outcome A) : M A := fun st => (o, st).

Definition getData : M AnalysisData := fun st => (Ok (analysisData st), st).

Definition modifyData (f : AnalysisData -> AnalysisData) : M unit :=
  fun st => (Ok tt, mkState (frameCount st) (f (analysisData st)) (dom st)).

Definition modifyDom (f : Dom -> Dom) : M unit :=
  fun st => (Ok tt, mkState (frameCount st) (analysisData st) (f (dom st))).

Definition modifyFrameCount (f : nat -> nat) : M unit :=
  fun st => (Ok tt, mkState (f (frameCount st)) (analysisData st) (dom st)).

Declare Scope m_scope.
Delimit Scope m_scope with M.
Notation "v <- m ;; k" := (bind m (fun v => k))
  (at level 61, m at next level, right associativity) : m_scope.
Notation "m ;; k" := (bind m (fun _ => k))
  (at level 61, right associativity) : m_scope.

(** ** The functions that write to the page *)

Section Presentation.
Local Open Scope m_scope.

Definition setFeedback (f : Feedback) : M unit :=
  modifyDom (fun d =>
    mkDom (Some f) (metric d) (score_ring d) (bar d) (elbow_status d)
          (release_status d) (knee_status d) (alignment_status d)).

Definition updateMetricDisplay (elementId : MetricId) (value : Display) : M unit :=
  modifyDom (fun d =>
    mkDom (form_feedback d)
          (fun i => if MetricId_eqb i elementId then value else metric d i)
          (score_ring d) (bar d) (elbow_status d)
          (release_status d) (knee_status d) (alignment_status d)).

Definition updateScoreRing (score : R) : M unit :=
  let circumference := 2 * PI * 52 in
  let offset := circumference - (score / 100) * circumference in
  let colour :=
    if JsMath.geb score 80 then Green
    else if JsMath.geb score 60 then Amber
    else Red in
  modifyDom (fun d =>
    mkDom (form_feedback d) (metric d) (Some (mkRing offset colour)) (bar d)
          (elbow_status d) (release_status d) (knee_status d)
          (alignment_status d)).

Definition updateBar (barId : BarId) (score : R) : M unit :=
  let class :=
    if JsMath.geb score 80 then good
    else if JsMath.geb score 60 then warning
    else poor in
  modifyDom (fun d =>
    mkDom (form_feedback d) (metric d) (score_ring d)
          (fun i => if BarId_eqb i barId then Some (mkBar score class) else bar d i)
          (elbow_status d) (release_status d) (knee_status d)
          (alignment_status d)).

Definition updateProgressBars (elbowScore releaseScore kneeScore alignmentScore : R)
  : M unit :=
  updateBar elbow_bar elbowScore ;;
  updateBar release_bar releaseScore ;;
  updateBar knee_bar kneeScore ;;
  updateBar alignment_bar alignmentScore.

(** The text [updateFeedback] chooses; only [overall] is looked at. *)
Definition feedbackOf (overall : R) : Feedback :=
  if JsMath.geb overall 85 then FbExcellent
  else if JsMath.geb overall 70 then FbGood
  else if JsMath.geb overall 50 then FbFair
  else FbNeedsImprovement.

Definition updateFeedback (overall elbow release knee alignment : R) : M unit :=
  setFeedback (feedbackOf overall).

(** The four texts [updateStatusMessages] chooses. *)
Definition elbowStatusOf (elbow : R) : ElbowStatus :=
  if JsMath.geb elbow 85 && JsMath.leb elbow 95 then ElbowPerfect
  else if JsMath.ltb elbow 85 then ElbowRaise
  else ElbowLower.

Definition releaseStatusOf (release : R) : ReleaseStatus :=
  if JsMath.geb release 45 && JsMath.leb release 60 then ReleaseOptimal
  else if JsMath.ltb release 45 then ReleaseTooLow
  else ReleaseTooHigh.

Definition kneeStatusOf (knee : R) : KneeStatus :=
  if JsMath.geb knee 100 && JsMath.leb knee 130 then KneeGood
  else if JsMath.ltb knee 100 then KneeBendMore
  else KneeTooBent.

Definition alignmentStatusOf (alignment : R) : AlignmentStatus :=
  if JsMath.geb alignment 90 then AlignmentPerfect
  else AlignmentCheck.

Definition updateStatusMessages (elbow release knee alignment : R) : M unit :=
  modifyDom (fun d =>
    mkDom (form_feedback d) (metric d) (score_ring d) (bar d)
          (Some (elbowStatusOf elbow)) (Some (releaseStatusOf release))
          (Some (kneeStatusOf knee)) (Some (alignmentStatusOf alignment))).

End Presentation.

(** ** Drawing

    The canvas is not part of the state; what is kept of the drawing
    functions is which property reads they make, since a read on
    [undefined] throws. *)

Section Drawing.
Local Open Scope outcome_scope.

(** The [landmarks.forEach] of [drawPose]: [forEach] calls back on the
    elements and passes over the holes; elements 11 to 28 are dereferenced.
    The loop over [connections] before it tests both end points and reads
    nothing of a missing one. *)
Fixpoint drawPoints (i : nat) (landmarks : list Slot) : Outcome unit :=
  match landmarks with
  | [] => Ok tt
  | Hole :: rest => drawPoints (S i) rest
  | Elem landmark :: rest =>
      if Nat.ltb 10 i && Nat.ltb i 29 then
        _ <- prop_x landmark ;; _ <- prop_y landmark ;; drawPoints (S i) rest
      else drawPoints (S i) rest
  end.

Definition drawPose (landmarks : list Slot) : Outcome unit :=
  drawPoints 0 landmarks.

Definition drawAngleIndicator (point1 vertex point3 : option Landmark) (angle : R)
  : Outcome unit :=
  _ <- prop_x vertex ;; _ <- prop_y vertex ;; Ok tt.

End Drawing.

(** ** The pipeline *)

Section Pipeline.
Local Open Scope m_scope.

(** The four [push] calls of [analyzeShootingForm]. *)
Definition pushAll (elbowAngle releaseHeight kneeAngle alignmentScore : R)
           (d : AnalysisData) : AnalysisData :=
  mkAnalysisData (elbowAngles d ++ [elbowAngle])
                 (releaseHeights d ++ [releaseHeight])
                 (kneeAngles d ++ [kneeAngle])
                 (alignmentScores d ++ [alignmentScore]).

(** The four [shift] calls; [shift] on an empty array does nothing. *)
Definition shiftAll (d : AnalysisData) : AnalysisData :=
  mkAnalysisData (tl (elbowAngles d)) (tl (releaseHeights d))
                 (tl (kneeAngles d)) (tl (alignmentScores d)).

Definition analyzeShootingForm (landmarks : list Slot) : M unit :=
  let rightShoulder := index landmarks 12 in
  let rightElbow := index landmarks 14 in
  let rightWrist := index landmarks 16 in
  let rightHip := index landmarks 24 in
  let rightKnee := index landmarks 26 in
  let rightAnkle := index landmarks 28 in
  let leftShoulder := index landmarks 11 in
  elbowAngle <- lift (calculateAngle rightShoulder rightElbow rightWrist) ;;
  releaseHeight <- lift (calculateReleaseAngle rightShoulder rightWrist) ;;
  kneeAngle <- lift (calculateAngle rightHip rightKnee rightAnkle) ;;
  alignmentScore <- lift (calculateAlignment leftShoulder rightShoulder) ;;
  modifyData (pushAll elbowAngle releaseHeight kneeAngle alignmentScore) ;;
  d <- getData ;;
  (if Nat.ltb 30 (length (elbowAngles d)) then modifyData shiftAll else ret tt) ;;
  d <- getData ;;
  let avgElbow := average (elbowAngles d) in
  let avgRelease := average (releaseHeights d) in
  let avgKnee := average (kneeAngles d) in
  let avgAlignment := average (alignmentScores d) in
  updateMetricDisplay elbow_angle (Shown (JsMath.round avgElbow)) ;;
  updateMetricDisplay release_height (Shown (JsMath.round avgRelease)) ;;
  updateMetricDisplay knee_angle (Shown (JsMath.round avgKnee)) ;;
  updateMetricDisplay alignment_score (Shown (JsMath.round avgAlignment)) ;;
  let elbowScore := scoreElbowAngle avgElbow in
  let releaseScore := scoreReleaseHeight avgRelease in
  let kneeScore := scoreKneeAngle avgKnee in
  let alignmentScoreValue := avgAlignment in
  let overallScore :=
    overallScoreOf elbowScore releaseScore kneeScore alignmentScoreValue in
  updateMetricDisplay overall_score (Shown overallScore) ;;
  updateScoreRing overallScore ;;
  updateProgressBars elbowScore releaseScore kneeScore alignmentScoreValue ;;
  updateFeedback overallScore elbowScore releaseScore kneeScore alignmentScoreValue ;;
  updateStatusMessages avgElbow avgRelease avgKnee avgAlignment ;;
  lift (drawAngleIndicator rightShoulder rightElbow rightWrist avgElbow).

(** [results.poseLandmarks]: [None] when no pose was detected. *)
Record Results : Type := mkResults {
  poseLandmarks : option (list Slot)
}.

Definition onPoseResults (results : Results) : M unit :=
  match poseLandmarks results with
  | None => setFeedback FbNoPerson
  | Some landmarks =>
      lift (drawPose landmarks) ;;
      analyzeShootingForm landmarks ;;
      modifyFrameCount S
  end.

Definition resetStats : M unit :=
  modifyData (fun _ => emptyData) ;;
  modifyFrameCount (fun _ => 0%nat) ;;
  updateMetricDisplay overall_score Dashes ;;
  updateMetricDisplay elbow_angle Dashes ;;
  updateMetricDisplay release_height Dashes ;;
  updateMetricDisplay knee_angle Dashes ;;
  updateMetricDisplay alignment_score Dashes ;;
  setFeedback FbStatsReset ;;
  updateProgressBars 0 0 0 0 ;;
  updateScoreRing 0.

End Pipeline.

(** The states the page can be in: the one at load, then any sequence of
    frames and resets.  A frame that throws leaves the state it had reached. *)
Inductive reachable : State -> Prop :=
| reach_init (d : Dom) : reachable (initialState d)
| reach_frame (st : State) (results : Results) :
    reachable st -> reachable (snd (onPoseResults results st))
| reach_reset (st : State) :
    reachable st -> reachable (snd (resetStats st)).

(** Running a list of frames one after the other; a throwing frame is
    dropped by the caller and the next one is processed. *)
Fixpoint runFrames (frames : list Results) (st : State) : State :=
  match frames with
  | [] => st
  | results :: rest => runFrames rest (snd (onPoseResults results st))
  end.

(** ** Vocabulary of the specification *)

(** The four raw metrics of one frame. *)
Record FrameMetrics : Type := mkFrameMetrics {
  elbowAngle : R;
  releaseAngle : R;
  kneeAngle : R;
  alignmentScore : R
}.

(** The metrics [analyzeShootingForm] computes from the seven landmarks it
    reads, in the order it computes them. *)
Definition frameMetrics (landmarks : list Slot) : Outcome FrameMetrics :=
  (e <- calculateAngle (index landmarks 12) (index landmarks 14) (index landmarks 16) ;;
   r <- calculateReleaseAngle (index landmarks 12) (index landmarks 16) ;;
   k <- calculateAngle (index landmarks 24) (index landmarks 26) (index landmarks 28) ;;
   a <- calculateAlignment (index landmarks 11) (index landmarks 12) ;;
   Ok (mkFrameMetrics e r k a))%outcome.

(** A valid frame: a pose was detected, and drawing and measuring it read
    no missing landmark; [fm] are its raw metrics. *)
Definition validFrame (results : Results) (fm : FrameMetrics) : Prop :=
  exists landmarks,
    poseLandmarks results = Some landmarks /\
    drawPose landmarks = Ok tt /\
    frameMetrics landmarks = Ok fm.

(** The joints [analyzeShootingForm] reads: both shoulders and the right
    elbow, wrist, hip, knee and ankle. *)
Definition requiredJoints : list nat := [11; 12; 14; 16; 24; 26; 28]%nat.

Definition missesJoint (landmarks : list Slot) : Prop :=
  exists i, In i requiredJoints /\ index landmarks i = None.

Inductive Metric : Type := Elbow | Release | Knee | Alignment.

Definition queue (m : Metric) (d : AnalysisData) : list R :=
  match m with
  | Elbow => elbowAngles d
  | Release => releaseHeights d
  | Knee => kneeAngles d
  | Alignment => alignmentScores d
  end.

Definition raw (m : Metric) (fm : FrameMetrics) : R :=
  match m with
  | Elbow => elbowAngle fm
  | Release => releaseAngle fm
  | Knee => kneeAngle fm
  | Alignment => alignmentScore fm
  end.

(** The smoothed value of a metric in a state. *)
Definition smoothed (m : Metric) (st : State) : R :=
  average (queue m (analysisData st)).

(** What [analyzeShootingForm] does to the queues on a frame with metrics
    [fm]: the four pushes, then the four shifts if the elbow queue has grown
    past 30. *)
Definition slideAll (d : AnalysisData) : AnalysisData :=
  if Nat.ltb 30 (length (elbowAngles d)) then shiftAll d else d.

Definition recordFrame (fm : FrameMetrics) (d : AnalysisData) : AnalysisData :=
  slideAll (pushAll (elbowAngle fm) (releaseAngle fm) (kneeAngle fm)
                    (alignmentScore fm) d).

(** A sliding window of capacity 30 on one queue: append, then drop the
    oldest value if there are more than 30. *)
Definition slide30 (q : list R) (v : R) : list R :=
  if Nat.ltb 30 (length (q ++ [v])) then tl (q ++ [v]) else q ++ [v].

Definition sum (l : list R) : R := fold_right Rplus 0 l.

(** The four queues have one length. *)
Definition sameLength (d : AnalysisData) : Prop :=
  forall m, length (queue m d) = length (elbowAngles d).

(** The last [n] values of a list. *)
Definition lastn (n : nat) (l : list R) : list R := skipn (length l - n) l.

(** ** The drawing of the skeleton

    What [drawPose] puts on the canvas, for a canvas of width [cw] and
    height [ch]: a line for each connection of its table whose two end
    landmarks are there, and a disc of radius 6 on each landmark with index
    11 to 28. *)

Record Segment : Type := mkSegment { fromX : R; fromY : R; toX : R; toY : R }.

Record Disc : Type := mkDisc { centreX : R; centreY : R; radius : R }.

(** The table [connections] of [drawPose]. *)
Definition connections : list (nat * nat) :=
  [ (11, 13); (13, 15); (12, 14); (14, 16); (11, 12); (11, 23); (12, 24);
    (23, 24); (23, 25); (25, 27); (24, 26); (26, 28) ]%nat.

(** The truth value of a landmark in a condition: [undefined] is false. *)
Definition truthy (p : option Landmark) : bool :=
  match p with
  | Some _ => true
  | None => false
  end.

(** The [connections.forEach] of [drawPose] on the table [cs]. *)
Fixpoint drawConnections (cw ch : R) (landmarks : list Slot)
         (cs : list (nat * nat)) : Outcome (list Segment) :=
  match cs with
  | [] => Ok []
  | (start, end') :: rest =>
      let startPoint := index landmarks start in
      let endPoint := index landmarks end' in
      if truthy startPoint && truthy endPoint then
        (sx <- prop_x startPoint ;; sy <- prop_y startPoint ;;
         ex <- prop_x endPoint ;; ey <- prop_y endPoint ;;
         more <- drawConnections cw ch landmarks rest ;;
         Ok (mkSegment (sx * cw) (sy * ch) (ex * cw) (ey * ch) :: more))%outcome
      else drawConnections cw ch landmarks rest
  end.

(** The [landmarks.forEach] of [drawPose], from index [i] on. *)
Fixpoint drawLandmarks (cw ch : R) (i : nat) (landmarks : list Slot)
  : Outcome (list Disc) :=
  match landmarks with
  | [] => Ok []
  | Hole :: rest => drawLandmarks cw ch (S i) rest
  | Elem landmark :: rest =>
      if Nat.ltb 10 i && Nat.ltb i 29 then
        (lx <- prop_x landmark ;; ly <- prop_y landmark ;;
         more <- drawLandmarks cw ch (S i) rest ;;
         Ok (mkDisc (lx * cw) (ly * ch) 6 :: more))%outcome
      else drawLandmarks cw ch (S i) rest
  end.

(** The lines, then the discs. *)
Definition drawPoseCanvas (cw ch : R) (landmarks : list Slot)
  : Outcome (list Segment * list Disc) :=
  (segments <- drawConnections cw ch landmarks connections ;;
   discs <- drawLandmarks cw ch 0 landmarks ;;
   Ok (segments, discs))%outcome.

(** ** The camera controls

    The flag [isRunning], the two buttons and the status line, as
    [startCamera], [stopCamera] and [resetCamera] set them.  The camera
    object is outside the code: [camera] is [None] while the variable is
    [undefined] and [Some b] once a camera has been made, [b] telling whether
    it is started; what making and starting it does is an input of
    [startCamera]. *)

Inductive StatusText : Type :=
| StReady        (* 'Ready' *)
| StAnalyzing    (* 'Analyzing...' *)
| StStopped.     (* 'Stopped' *)

Record Controls : Type := mkControls {
  isRunning : bool;
  camera : option bool;
  startBtn_disabled : bool;
  stopBtn_disabled : bool;
  statusText : option StatusText
}.

(** What happens in the [try] block of [startCamera]. *)
Inductive CameraOutcome : Type :=
| CameraStarts          (* [camera.start()] resolves *)
| CameraCannotBeMade    (* [new Camera(...)] throws *)
| CameraStartRejects.   (* [camera.start()] rejects *)

Definition resetCamera (c : Controls) : Controls :=
  mkControls false (camera c) false true (Some StReady).

Definition startCamera (o : CameraOutcome) (c : Controls) : Controls :=
  let c1 := mkControls true (camera c) true false (Some StAnalyzing) in
  match o with
  | CameraStarts =>
      mkControls (isRunning c1) (Some true) (startBtn_disabled c1)
                 (stopBtn_disabled c1) (statusText c1)
  | CameraCannotBeMade => resetCamera c1
  | CameraStartRejects =>
      resetCamera (mkControls (isRunning c1) (Some false) (startBtn_disabled c1)
                              (stopBtn_disabled c1) (statusText c1))
  end.

Definition stopCamera (c : Controls) : Controls :=
  mkControls false
             (match camera c with Some _ => Some false | None => None end)
             false true (Some StStopped).

(** The page with its controls. *)
Record App : Type := mkApp { controls : Controls; core : State }.

(** The [onFrame] callback given to the camera: the frame goes to the pose
    model only while [isRunning]; [results] is what the model hands to
    [onPoseResults] for that frame. *)
Definition onFrame (results : Results) (a : App) : Outcome unit * App :=
  if isRunning (controls a) then
    let (o, st) := onPoseResults results (core a) in
    (o, mkApp (controls a) st)
  else (Ok tt, a).

(** The events of the page: the three buttons and a camera frame. *)
Inductive Event : Type :=
| ClickStart (o : CameraOutcome)
| ClickStop
| ClickReset
| Frame (results : Results).

Definition handle (e : Event) (a : App) : App :=
  match e with
  | ClickStart o => mkApp (startCamera o (controls a)) (core a)
  | ClickStop => mkApp (stopCamera (controls a)) (core a)
  | ClickReset => mkApp (controls a) (snd (resetStats (core a)))
  | Frame results => snd (onFrame results a)
  end.

Definition handleAll (es : list Event) (a : App) : App :=
  fold_left (fun a e => handle e a) es a.

(** ** Frame streams *)

(** The raw metrics of a frame that goes through: a pose is there and
    neither the drawing nor the measuring throws. *)
Definition metricsOf (results : Results) : option FrameMetrics :=
  match poseLandmarks results with
  | None => None
  | Some landmarks =>
      match drawPose landmarks, frameMetrics landmarks with
      | Ok _, Ok fm => Some fm
      | _, _ => None
      end
  end.

(** The raw metrics of the frames of a stream that go through, in order. *)
Fixpoint validMetrics (frames : list Results) : list FrameMetrics :=
  match frames with
  | [] => []
  | results :: rest =>
      match metricsOf results with
      | Some fm => fm :: validMetrics rest
      | None => validMetrics rest
      end
  end.

(** The bounds of the four raw metrics. *)
Definition inRange (m : Metric) (v : R) : Prop :=
  match m with
  | Elbow | Knee => 0 <= v <= 180
  | Release => 0 <= v <= 90
  | Alignment => 0 <= v <= 100
  end.

(** ** Sample inputs *)

(** A page on which nothing has been written yet. *)
Definition blankPage : Dom :=
  mkDom None (fun _ => Dashes) None (fun _ => None) None None None None.

(** A full pose of 33 landmarks, all at the centre of the image except the
    left shoulder, which is at height [ly]. *)
Definition samplePose (ly : R) : list Slot :=
  repeat (Elem (Some (mkLandmark (1 / 2) (1 / 2)))) 11 ++
  [Elem (Some (mkLandmark (1 / 2) ly))] ++
  repeat (Elem (Some (mkLandmark (1 / 2) (1 / 2)))) 21.

(** The metrics [frameMetrics] gives on [samplePose ly]. *)
Definition sampleMetrics (ly : R) : FrameMetrics :=
  mkFrameMetrics
    (angleAt (1 / 2) (1 / 2) (1 / 2) (1 / 2) (1 / 2) (1 / 2))
    (Rmax 0 (JsMath.atan2 (1 / 2 - 1 / 2) (Rabs (1 / 2 - 1 / 2)) * 180 / PI))
    (angleAt (1 / 2) (1 / 2) (1 / 2) (1 / 2) (1 / 2) (1 / 2))
    (Rmax 0 (100 - Rabs (ly - 1 / 2) * 1000)).

(** A pose whose array stops before the right wrist (index 16). *)
Definition truncatedPose : list Slot :=
  repeat (Elem (Some (mkLandmark (1 / 2) (1 / 2)))) 16.

(** * Properties *)

(** ** Comparisons *)

Lemma leb_true (a b : R) : a <= b -> JsMath.leb a b = true.
Proof. unfold JsMath.leb; destruct (Rle_dec a b); intros; [reflexivity | lra]. Qed.

Lemma leb_false (a b : R) : b < a -> JsMath.leb a b = false.
Proof. unfold JsMath.leb; destruct (Rle_dec a b); intros; [lra | reflexivity]. Qed.

Lemma ltb_true (a b : R) : a < b -> JsMath.ltb a b = true.
Proof. unfold JsMath.ltb; destruct (Rlt_dec a b); intros; [reflexivity | lra]. Qed.

Lemma ltb_false (a b : R) : b <= a -> JsMath.ltb a b = false.
Proof. unfold JsMath.ltb; destruct (Rlt_dec a b); intros; [lra | reflexivity]. Qed.

Lemma geb_true (a b : R) : b <= a -> JsMath.geb a b = true.
Proof. unfold JsMath.geb; destruct (Rge_dec a b); intros; [reflexivity | lra]. Qed.

Lemma geb_false (a b : R) : a < b -> JsMath.geb a b = false.
Proof. unfold JsMath.geb; destruct (Rge_dec a b); intros; [lra | reflexivity]. Qed.

Lemma gtb_true (a b : R) : b < a -> JsMath.gtb a b = true.
Proof. unfold JsMath.gtb; destruct (Rgt_dec a b); intros; [reflexivity | lra]. Qed.

Lemma gtb_false (a b : R) : a <= b -> JsMath.gtb a b = false.
Proof. unfold JsMath.gtb; destruct (Rgt_dec a b); intros; [lra | reflexivity]. Qed.

(** Rewrites every comparison whose outcome [lra] can settle. *)
Ltac decide_cmp :=
  repeat first
    [ rewrite leb_true by lra | rewrite leb_false by lra
    | rewrite ltb_true by lra | rewrite ltb_false by lra
    | rewrite geb_true by lra | rewrite geb_false by lra
    | rewrite gtb_true by lra | rewrite gtb_false by lra ];
  cbn [andb orb].

(** ** [Math.atan2] *)

Lemma atan_nonpos (t : R) : t <= 0 -> atan t <= 0.
Proof.
  intros [Hlt | Heq].
  - left; rewrite <- atan_0; apply atan_increasing; assumption.
  - subst t; rewrite atan_0; lra.
Qed.

Lemma atan_pos (t : R) : 0 < t -> 0 < atan t.
Proof. intros; rewrite <- atan_0; apply atan_increasing; assumption. Qed.

Lemma div_neg_nonpos (a b : R) : 0 <= a -> b < 0 -> a / b <= 0.
Proof.
  intros Ha Hb; unfold Rdiv.
  assert (/ b < 0) by (apply Rinv_lt_0_compat; assumption).
  nra.
Qed.

Lemma div_neg_neg_pos (a b : R) : a < 0 -> b < 0 -> 0 < a / b.
Proof.
  intros Ha Hb; unfold Rdiv.
  assert (/ b < 0) by (apply Rinv_lt_0_compat; assumption).
  nra.
Qed.

Lemma atan2_range (b a : R) : - PI < JsMath.atan2 b a <= PI.
Proof.
  pose proof PI_RGT_0 as Hpi.
  unfold JsMath.atan2.
  destruct (Rlt_dec 0 a) as [Hpos | Hnpos].
  - pose proof (atan_bound (b / a)); lra.
  - destruct (Rlt_dec a 0) as [Hneg | Hnneg].
    + destruct (Rle_dec 0 b) as [Hb | Hb].
      * pose proof (atan_bound (b / a)).
        pose proof (atan_nonpos (b / a) (div_neg_nonpos b a Hb Hneg)); lra.
      * pose proof (atan_bound (b / a)).
        assert (b < 0) by lra.
        pose proof (atan_pos (b / a) (div_neg_neg_pos b a H0 Hneg)); lra.
    + destruct (Rlt_dec 0 b); [lra |].
      destruct (Rlt_dec b 0); lra.
Qed.

Lemma atan2_0_0 : JsMath.atan2 0 0 = 0.
Proof.
  unfold JsMath.atan2.
  destruct (Rlt_dec 0 0); [lra |]; reflexivity.
Qed.

(** On the right half plane the result is within a right angle. *)
Lemma atan2_right_half (b a : R) : 0 <= a -> - (PI / 2) <= JsMath.atan2 b a <= PI / 2.
Proof.
  intros Ha; pose proof PI_RGT_0 as Hpi.
  unfold JsMath.atan2.
  destruct (Rlt_dec 0 a).
  - pose proof (atan_bound (b / a)); lra.
  - destruct (Rlt_dec a 0); [lra |].
    destruct (Rlt_dec 0 b); [lra |].
    destruct (Rlt_dec b 0); lra.
Qed.

Lemma atan2_pos (b a : R) : 0 < b -> 0 <= a -> 0 < JsMath.atan2 b a.
Proof.
  intros Hb Ha; pose proof PI_RGT_0 as Hpi.
  unfold JsMath.atan2.
  destruct (Rlt_dec 0 a) as [Hpos |].
  - apply atan_pos. unfold Rdiv.
    assert (0 < / a) by (apply Rinv_0_lt_compat; assumption). nra.
  - destruct (Rlt_dec a 0); [lra |].
    destruct (Rlt_dec 0 b); lra.
Qed.

Lemma atan2_vertical (b : R) : 0 < b -> JsMath.atan2 b 0 = PI / 2.
Proof.
  intros Hb; unfold JsMath.atan2.
  destruct (Rlt_dec 0 0); [lra |].
  destruct (Rlt_dec 0 b); [reflexivity | lra].
Qed.

Lemma atan2_increasing (b1 b2 a : R) :
  0 < a -> b1 < b2 -> JsMath.atan2 b1 a < JsMath.atan2 b2 a.
Proof.
  intros Ha Hb; unfold JsMath.atan2.
  destruct (Rlt_dec 0 a); [| lra].
  apply atan_increasing. unfold Rdiv.
  assert (0 < / a) by (apply Rinv_0_lt_compat; assumption). nra.
Qed.

Lemma atan2_monotone (b1 b2 a : R) :
  0 <= a -> b1 <= b2 -> JsMath.atan2 b1 a <= JsMath.atan2 b2 a.
Proof.
  intros Ha [Hlt | Heq]; [| subst; lra].
  destruct Ha as [Hpos | Hz].
  - left; apply atan2_increasing; assumption.
  - subst a; pose proof PI_RGT_0 as Hpi. unfold JsMath.atan2.
    destruct (Rlt_dec 0 0); [lra |].
    destruct (Rlt_dec 0 b1), (Rlt_dec 0 b2), (Rlt_dec b1 0), (Rlt_dec b2 0); lra.
Qed.

(** Radians to degrees. *)
Lemma degrees_bound (r c : R) : - c * PI <= r <= c * PI -> - (c * 180) <= r * 180 / PI <= c * 180.
Proof.
  intros [Hlo Hhi]; pose proof PI_RGT_0 as Hpi.
  assert (Hinv : 0 < / PI) by (apply Rinv_0_lt_compat; assumption).
  assert (Hone : PI * / PI = 1) by (apply Rinv_r; lra).
  unfold Rdiv. split.
  - replace (- (c * 180)) with ((- c * PI) * 180 * / PI) by (field; lra).
    apply Rmult_le_compat_r; lra.
  - replace (c * 180) with ((c * PI) * 180 * / PI) by (field; lra).
    apply Rmult_le_compat_r; lra.
Qed.

Lemma degrees_lt (r1 r2 : R) : r1 < r2 -> r1 * 180 / PI < r2 * 180 / PI.
Proof.
  intros H; pose proof PI_RGT_0 as Hpi.
  assert (Hinv : 0 < / PI) by (apply Rinv_0_lt_compat; assumption).
  unfold Rdiv. apply Rmult_lt_compat_r; lra.
Qed.

Lemma degrees_le (r1 r2 : R) : r1 <= r2 -> r1 * 180 / PI <= r2 * 180 / PI.
Proof.
  intros H; pose proof PI_RGT_0 as Hpi.
  assert (Hinv : 0 < / PI) by (apply Rinv_0_lt_compat; assumption).
  unfold Rdiv. apply Rmult_le_compat_r; lra.
Qed.

Lemma degrees_right_angle : PI / 2 * 180 / PI = 90.
Proof. pose proof PI_RGT_0; field; lra. Qed.

(** ** The joint angle *)

Lemma angleAt_range (x1 y1 x2 y2 x3 y3 : R) :
  0 <= angleAt x1 y1 x2 y2 x3 y3 <= 180.
Proof.
  unfold angleAt, JsMath.abs.
  set (r := JsMath.atan2 (y3 - y2) (x3 - x2) - JsMath.atan2 (y1 - y2) (x1 - x2)).
  assert (Hr : - (2) * PI <= r <= 2 * PI).
  { pose proof (atan2_range (y3 - y2) (x3 - x2)).
    pose proof (atan2_range (y1 - y2) (x1 - x2)). unfold r; lra. }
  pose proof (degrees_bound r 2 Hr) as Hd.
  assert (Habs : 0 <= Rabs (r * 180 / PI) <= 360).
  { split; [apply Rabs_pos |]. apply Rabs_le; lra. }
  unfold JsMath.gtb. destruct (Rgt_dec (Rabs (r * 180 / PI)) 180); lra.
Qed.

Lemma angleAt_sym (x1 y1 x2 y2 x3 y3 : R) :
  angleAt x1 y1 x2 y2 x3 y3 = angleAt x3 y3 x2 y2 x1 y1.
Proof.
  unfold angleAt, JsMath.abs.
  replace ((JsMath.atan2 (y1 - y2) (x1 - x2) - JsMath.atan2 (y3 - y2) (x3 - x2)) * 180 / PI)
    with (- ((JsMath.atan2 (y3 - y2) (x3 - x2) - JsMath.atan2 (y1 - y2) (x1 - x2)) * 180 / PI))
    by (unfold Rdiv; ring).
  rewrite Rabs_Ropp. reflexivity.
Qed.

Lemma angleAt_coincident (a b : R) : angleAt a b a b a b = 0.
Proof.
  unfold angleAt, JsMath.abs.
  replace (b - b) with 0 by ring. replace (a - a) with 0 by ring.
  rewrite atan2_0_0.
  replace ((0 - 0) * 180 / PI) with 0 by (unfold Rdiv; ring).
  rewrite Rabs_R0. rewrite gtb_false by lra. reflexivity.
Qed.

Lemma calculateAngle_some (p1 p2 p3 : Landmark) :
  calculateAngle (Some p1) (Some p2) (Some p3) =
  Ok (angleAt (x p1) (y p1) (x p2) (y p2) (x p3) (y p3)).
Proof. reflexivity. Qed.

Lemma calculateReleaseAngle_some (s w : Landmark) :
  calculateReleaseAngle (Some s) (Some w) =
  Ok (Rmax 0 (JsMath.atan2 (y s - y w) (Rabs (x s - x w)) * 180 / PI)).
Proof. reflexivity. Qed.

Lemma calculateAlignment_some (l r : Landmark) :
  calculateAlignment (Some l) (Some r) =
  Ok (Rmax 0 (100 - Rabs (y l - y r) * 1000)).
Proof. reflexivity. Qed.

(** C5: on every triple of landmarks, coincident ones included,
    [calculateAngle] returns a value (it does not throw), the value lies
    between 0 and 180 degrees, and swapping the two points that are not the
    vertex gives the same value; three coincident points give 0. *)
Theorem C5_calculateAngle_range_and_symmetry (p1 p2 p3 : Landmark) :
  (exists a,
      calculateAngle (Some p1) (Some p2) (Some p3) = Ok a /\
      0 <= a <= 180 /\
      calculateAngle (Some p3) (Some p2) (Some p1) = Ok a) /\
  calculateAngle (Some p2) (Some p2) (Some p2) = Ok 0.
Proof.
  split.
  - exists (angleAt (x p1) (y p1) (x p2) (y p2) (x p3) (y p3)).
    rewrite !calculateAngle_some. split; [reflexivity |]. split.
    + apply angleAt_range.
    + f_equal. apply angleAt_sym.
  - rewrite calculateAngle_some. f_equal. apply angleAt_coincident.
Qed.

(** C6, as the code has it: [calculateReleaseAngle] returns
    atan2(shoulder.y - wrist.y, |shoulder.x - wrist.x|) in degrees, floored
    at 0, so the result is never negative (and never above 90); a wrist above
    the shoulder (smaller y) gives a positive angle; of two wrists at one
    horizontal separation from the shoulder, the higher one, if it is above
    the shoulder, gives an angle at least as large; a wrist straight above
    the shoulder gives 90 degrees; a wrist level with the shoulder or below
    it gives 0, so that a wrist above the shoulder gives a strictly larger
    angle than one that is not. *)
Theorem C6_release_angle (s w1 w2 : Landmark) (a1 a2 : R) :
  calculateReleaseAngle (Some s) (Some w1) = Ok a1 ->
  calculateReleaseAngle (Some s) (Some w2) = Ok a2 ->
  a1 = Rmax 0 (JsMath.atan2 (y s - y w1) (Rabs (x s - x w1)) * 180 / PI) /\
  0 <= a1 <= 90 /\
  (y w1 < y s -> 0 < a1) /\
  (y s <= y w1 -> a1 = 0) /\
  (y w1 < y s -> x w1 = x s -> a1 = 90) /\
  (Rabs (x s - x w1) = Rabs (x s - x w2) -> y w2 < y w1 -> y w2 < y s ->
   a1 <= a2) /\
  (y s <= y w1 -> y w2 < y s -> a1 < a2).
Proof.
  rewrite !calculateReleaseAngle_some. intros H1 H2.
  injection H1 as <-. injection H2 as <-.
  pose proof PI_RGT_0 as Hpi.
  pose proof (Rabs_pos (x s - x w1)) as Hsep.
  pose proof (Rabs_pos (x s - x w2)) as Hsep2.
  assert (Hfloor : y s <= y w1 ->
          Rmax 0 (JsMath.atan2 (y s - y w1) (Rabs (x s - x w1)) * 180 / PI) = 0).
  { intros Hlow. apply Rmax_left.
    assert (H : JsMath.atan2 (y s - y w1) (Rabs (x s - x w1)) <= 0).
    { apply Rle_trans with (JsMath.atan2 0 (Rabs (x s - x w1))).
      - apply atan2_monotone; lra.
      - unfold JsMath.atan2.
        destruct (Rlt_dec 0 (Rabs (x s - x w1))).
        + unfold Rdiv. rewrite Rmult_0_l, atan_0. lra.
        + destruct (Rlt_dec (Rabs (x s - x w1)) 0); [lra |].
          destruct (Rlt_dec 0 0); [lra |]. destruct (Rlt_dec 0 0); lra. }
    pose proof (degrees_le _ 0 H) as Hd.
    replace (0 * 180 / PI) with 0 in Hd by (unfold Rdiv; ring). exact Hd. }
  assert (Hraised : forall w, y w < y s ->
          0 < Rmax 0 (JsMath.atan2 (y s - y w) (Rabs (x s - x w)) * 180 / PI)).
  { intros w Hup. apply Rlt_le_trans with (2 := Rmax_r _ _).
    replace 0 with (0 * 180 / PI) by (unfold Rdiv; ring).
    apply degrees_lt. apply atan2_pos; [lra | apply Rabs_pos]. }
  split; [reflexivity |]. split; [| split; [| split; [| split; [| split]]]].
  - split; [apply Rmax_l |]. apply Rmax_lub; [lra |].
    rewrite <- degrees_right_angle. apply degrees_le.
    apply atan2_right_half; assumption.
  - apply Hraised.
  - exact Hfloor.
  - intros Hup Hx. rewrite Hx. replace (x s - x s) with 0 by ring.
    rewrite Rabs_R0, atan2_vertical by lra.
    rewrite degrees_right_angle. apply Rmax_right. lra.
  - intros Heq Hhigher Hup. rewrite <- Heq.
    assert (Hpos2 : 0 < JsMath.atan2 (y s - y w2) (Rabs (x s - x w1)) * 180 / PI).
    { replace 0 with (0 * 180 / PI) by (unfold Rdiv; ring).
      apply degrees_lt. apply atan2_pos; lra. }
    rewrite (Rmax_right 0 (JsMath.atan2 (y s - y w2) _ * 180 / PI)) by lra.
    apply Rmax_lub; [lra |]. apply degrees_le. apply atan2_monotone; lra.
  - intros Hlow Hup. rewrite (Hfloor Hlow). apply Hraised. exact Hup.
Qed.

(** C6 at a shoulder, a wrist level with it and a wrist above it, both one
    tenth to the side. *)
Lemma C6_release_angle_witness :
  exists a1 a2,
    calculateReleaseAngle (Some (mkLandmark (1 / 2) (1 / 2)))
                          (Some (mkLandmark (6 / 10) (1 / 2))) = Ok a1 /\
    calculateReleaseAngle (Some (mkLandmark (1 / 2) (1 / 2)))
                          (Some (mkLandmark (6 / 10) (3 / 10))) = Ok a2 /\
    a1 < a2.
Proof.
  eexists; eexists. split; [reflexivity |]. split; [reflexivity |].
  refine (proj2 (proj2 (proj2 (proj2 (proj2 (proj2
    (C6_release_angle (mkLandmark (1 / 2) (1 / 2)) (mkLandmark (6 / 10) (1 / 2))
       (mkLandmark (6 / 10) (3 / 10)) _ _ eq_refl eq_refl)))))) _ _);
    cbn [x y]; lra.
Defined.

(** The claim C6 as stated fails where the wrist is straight above the
    shoulder: of two such wrists the higher one gives the same 90 degrees,
    not a larger angle. *)
Lemma C6_counterexample :
  let s := mkLandmark (1 / 2) (1 / 2) in
  let w1 := mkLandmark (1 / 2) (3 / 10) in
  let w2 := mkLandmark (1 / 2) (1 / 10) in
  y w2 < y w1 /\ y w1 < y s /\
  Rabs (x s - x w1) = Rabs (x s - x w2) /\
  calculateReleaseAngle (Some s) (Some w1) = Ok 90 /\
  calculateReleaseAngle (Some s) (Some w2) = Ok 90.
Proof.
  cbn zeta. rewrite !calculateReleaseAngle_some. cbn [x y].
  replace (1 / 2 - 1 / 2) with 0 by lra. rewrite Rabs_R0.
  rewrite !atan2_vertical by lra. rewrite degrees_right_angle.
  rewrite Rmax_right by lra.
  repeat split; lra.
Qed.

(** ** Scoring laws *)

Lemma scoreElbowAngle_near (a : R) :
  Rabs (a - 90) <= 10 -> scoreElbowAngle a = 100 - 5 * Rabs (a - 90).
Proof.
  intros H. unfold scoreElbowAngle, JsMath.abs. cbn zeta.
  rewrite leb_true by assumption. ring.
Qed.

Lemma scoreElbowAngle_far (a : R) :
  10 < Rabs (a - 90) ->
  scoreElbowAngle a = Rmax 0 (50 - 2 * (Rabs (a - 90) - 10)).
Proof.
  intros H. unfold scoreElbowAngle, JsMath.abs, JsMath.max. cbn zeta.
  rewrite leb_false by assumption. f_equal. ring.
Qed.

Lemma scoreReleaseHeight_band (a : R) : 45 <= a <= 60 -> scoreReleaseHeight a = 100.
Proof. intros H. unfold scoreReleaseHeight. decide_cmp. reflexivity. Qed.

Lemma scoreReleaseHeight_below (a : R) :
  a < 45 -> scoreReleaseHeight a = Rmax 0 (a / 45 * 100).
Proof. intros H. unfold scoreReleaseHeight. decide_cmp. reflexivity. Qed.

Lemma scoreReleaseHeight_above (a : R) :
  60 < a -> scoreReleaseHeight a = Rmax 0 (100 - 3 * (a - 60)).
Proof.
  intros H. unfold scoreReleaseHeight, JsMath.max. decide_cmp. f_equal. ring.
Qed.

Lemma scoreKneeAngle_band (a : R) : 100 <= a <= 130 -> scoreKneeAngle a = 100.
Proof. intros H. unfold scoreKneeAngle. decide_cmp. reflexivity. Qed.

Lemma scoreKneeAngle_below (a : R) :
  a < 100 -> scoreKneeAngle a = Rmax 0 (a / 100 * 100).
Proof. intros H. unfold scoreKneeAngle. decide_cmp. reflexivity. Qed.

Lemma scoreKneeAngle_above (a : R) :
  130 < a -> scoreKneeAngle a = Rmax 0 (100 - 2 * (a - 130)).
Proof.
  intros H. unfold scoreKneeAngle, JsMath.max. decide_cmp. f_equal. ring.
Qed.

(** C3: the point checks elbowScore(90) = 100, elbowScore(70) = 30,
    releaseScore(50) = 100, releaseScore(30) = 30/45*100 (about 66.7),
    kneeScore(115) = 100 and alignment 50 for a shoulder difference of 0.05;
    and the piecewise law of each of the four: elbow 100 - 5 |a - 90| within
    10 of 90 and max(0, 50 - 2 (|a - 90| - 10)) beyond; release 100 on
    [45, 60], max(0, a/45*100) below, max(0, 100 - 3 (a - 60)) above; knee
    100 on [100, 130], max(0, a/100*100) below, max(0, 100 - 2 (a - 130))
    above; alignment max(0, 100 - 1000 |diff|). *)
Theorem C3_scoring_laws :
  (scoreElbowAngle 90 = 100 /\ scoreElbowAngle 70 = 30 /\
   scoreReleaseHeight 50 = 100 /\
   scoreReleaseHeight 30 = 30 / 45 * 100 /\
   666 / 10 < scoreReleaseHeight 30 < 667 / 10 /\
   scoreKneeAngle 115 = 100 /\
   (forall l r, Rabs (y l - y r) = 5 / 100 ->
                calculateAlignment (Some l) (Some r) = Ok 50)) /\
  (forall a, Rabs (a - 90) <= 10 ->
             scoreElbowAngle a = 100 - 5 * Rabs (a - 90)) /\
  (forall a, 10 < Rabs (a - 90) ->
             scoreElbowAngle a = Rmax 0 (50 - 2 * (Rabs (a - 90) - 10))) /\
  (forall a, 45 <= a <= 60 -> scoreReleaseHeight a = 100) /\
  (forall a, a < 45 -> scoreReleaseHeight a = Rmax 0 (a / 45 * 100)) /\
  (forall a, 60 < a -> scoreReleaseHeight a = Rmax 0 (100 - 3 * (a - 60))) /\
  (forall a, 100 <= a <= 130 -> scoreKneeAngle a = 100) /\
  (forall a, a < 100 -> scoreKneeAngle a = Rmax 0 (a / 100 * 100)) /\
  (forall a, 130 < a -> scoreKneeAngle a = Rmax 0 (100 - 2 * (a - 130))) /\
  (forall l r, calculateAlignment (Some l) (Some r) =
               Ok (Rmax 0 (100 - 1000 * Rabs (y l - y r)))).
Proof.
  assert (H30 : scoreReleaseHeight 30 = 30 / 45 * 100).
  { rewrite scoreReleaseHeight_below by lra. apply Rmax_right. lra. }
  split; [repeat split |].
  - rewrite scoreElbowAngle_near.
    + replace (90 - 90) with 0 by ring. rewrite Rabs_R0. ring.
    + replace (90 - 90) with 0 by ring. rewrite Rabs_R0. lra.
  - assert (Hd : Rabs (70 - 90) = 20).
    { replace (70 - 90) with (- (20)) by ring.
      rewrite Rabs_Ropp. apply Rabs_right. lra. }
    rewrite scoreElbowAngle_far by lra. rewrite Hd.
    replace (50 - 2 * (20 - 10)) with 30 by ring. apply Rmax_right. lra.
  - apply scoreReleaseHeight_band. lra.
  - exact H30.
  - rewrite H30. lra.
  - rewrite H30. lra.
  - apply scoreKneeAngle_band. lra.
  - intros l r Hd. rewrite calculateAlignment_some, Hd. f_equal.
    replace (100 - 5 / 100 * 1000) with 50 by field. apply Rmax_right. lra.
  - repeat split.
    + exact scoreElbowAngle_near.
    + exact scoreElbowAngle_far.
    + exact scoreReleaseHeight_band.
    + exact scoreReleaseHeight_below.
    + exact scoreReleaseHeight_above.
    + exact scoreKneeAngle_band.
    + exact scoreKneeAngle_below.
    + exact scoreKneeAngle_above.
    + intros l r. rewrite calculateAlignment_some. do 2 f_equal. ring.
Qed.

(** The laws of C3 at one angle in each branch. *)
Lemma C3_scoring_laws_witness :
  scoreElbowAngle 88 = 100 - 5 * Rabs (88 - 90) /\
  scoreElbowAngle 120 = Rmax 0 (50 - 2 * (Rabs (120 - 90) - 10)) /\
  scoreReleaseHeight 52 = 100 /\
  scoreReleaseHeight 9 = Rmax 0 (9 / 45 * 100) /\
  scoreReleaseHeight 80 = Rmax 0 (100 - 3 * (80 - 60)) /\
  scoreKneeAngle 120 = 100 /\
  scoreKneeAngle 50 = Rmax 0 (50 / 100 * 100) /\
  scoreKneeAngle 150 = Rmax 0 (100 - 2 * (150 - 130)) /\
  calculateAlignment (Some (mkLandmark 0 (55 / 100))) (Some (mkLandmark 1 (5 / 10))) = Ok 50.
Proof.
  destruct C3_scoring_laws as
    [[_ [_ [_ [_ [_ [_ Hal]]]]]] [He1 [He2 [Hr1 [Hr2 [Hr3 [Hk1 [Hk2 [Hk3 _]]]]]]]]].
  assert (Rabs (88 - 90) = 2).
  { replace (88 - 90) with (- (2)) by ring. rewrite Rabs_Ropp. apply Rabs_right. lra. }
  assert (Rabs (120 - 90) = 30).
  { replace (120 - 90) with 30 by ring. apply Rabs_right. lra. }
  assert (Rabs (55 / 100 - 5 / 10) = 5 / 100).
  { replace (55 / 100 - 5 / 10) with (5 / 100) by field. apply Rabs_right. lra. }
  repeat split.
  - apply He1. lra.
  - apply He2. lra.
  - apply Hr1. lra.
  - apply Hr2. lra.
  - apply Hr3. lra.
  - apply Hk1. lra.
  - apply Hk2. lra.
  - apply Hk3. lra.
  - apply Hal. cbn [y]. assumption.
Defined.

(** ** The composite score *)

Lemma round_bounds (lo hi : Z) (s : R) :
  IZR lo <= s <= IZR hi -> IZR lo <= JsMath.round s <= IZR hi.
Proof.
  intros [Hlo Hhi]. unfold JsMath.round.
  pose proof (Zfloor_bound (s + / 2)) as [Hf1 Hf2]. split.
  - apply IZR_le. apply Zfloor_lub. lra.
  - apply IZR_le. apply Z.lt_succ_r. apply lt_IZR.
    rewrite succ_IZR. lra.
Qed.

(** The three scoring functions and the alignment measure stay between 0
    and 100 on every input. *)
Lemma scoreElbowAngle_range (a : R) : 0 <= scoreElbowAngle a <= 100.
Proof.
  pose proof (Rabs_pos (a - 90)) as Hpos.
  destruct (Rle_lt_dec (Rabs (a - 90)) 10) as [Hnear | Hfar].
  - rewrite scoreElbowAngle_near by assumption. lra.
  - rewrite scoreElbowAngle_far by assumption.
    split; [apply Rmax_l | apply Rmax_lub; lra].
Qed.

Lemma scoreReleaseHeight_range (a : R) : 0 <= scoreReleaseHeight a <= 100.
Proof.
  destruct (Rlt_le_dec a 45) as [Hlow | Hge].
  - rewrite scoreReleaseHeight_below by assumption.
    split; [apply Rmax_l | apply Rmax_lub; lra].
  - destruct (Rle_lt_dec a 60) as [Hin | Hhigh].
    + rewrite scoreReleaseHeight_band by lra. lra.
    + rewrite scoreReleaseHeight_above by assumption.
      split; [apply Rmax_l | apply Rmax_lub; lra].
Qed.

Lemma scoreKneeAngle_range (a : R) : 0 <= scoreKneeAngle a <= 100.
Proof.
  destruct (Rlt_le_dec a 100) as [Hlow | Hge].
  - rewrite scoreKneeAngle_below by assumption.
    split; [apply Rmax_l | apply Rmax_lub; lra].
  - destruct (Rle_lt_dec a 130) as [Hin | Hhigh].
    + rewrite scoreKneeAngle_band by lra. lra.
    + rewrite scoreKneeAngle_above by assumption.
      split; [apply Rmax_l | apply Rmax_lub; lra].
Qed.

Lemma alignment_range (d : R) : 0 <= Rmax 0 (100 - Rabs d * 1000) <= 100.
Proof.
  pose proof (Rabs_pos d). split; [apply Rmax_l | apply Rmax_lub; lra].
Qed.

(** ** Double arithmetic *)

Lemma nearestEven_error (r : R) : Rabs (IZR (Double.nearestEven r) - r) <= / 2.
Proof.
  unfold Double.nearestEven. pose proof (Zfloor_bound r) as [H1 H2].
  destruct (Rlt_dec (r - IZR (Zfloor r)) (/ 2)).
  - apply Rabs_le. lra.
  - destruct (Rlt_dec (/ 2) (r - IZR (Zfloor r))).
    + rewrite plus_IZR. apply Rabs_le. lra.
    + destruct (Z.even (Zfloor r)).
      * apply Rabs_le. lra.
      * rewrite plus_IZR. apply Rabs_le. lra.
Qed.

Lemma nearestEven_nonneg (r : R) : 0 <= r -> (0 <= Double.nearestEven r)%Z.
Proof.
  intros Hr. assert (Hf : (0 <= Zfloor r)%Z) by (apply Zfloor_lub; exact Hr).
  unfold Double.nearestEven.
  destruct (Rlt_dec _ _); [exact Hf |].
  destruct (Rlt_dec _ _); [lia |]. destruct (Z.even _); lia.
Qed.

Lemma nearestEven_near (r : R) (n : Z) :
  IZR n - / 2 < r < IZR n + / 2 -> Double.nearestEven r = n.
Proof.
  intros H. unfold Double.nearestEven.
  pose proof (Zfloor_bound r) as [H1 H2].
  destruct (Rlt_dec (r - IZR (Zfloor r)) (/ 2)) as [Hlt | Hge].
  - assert (Hz : (n - 1 < Zfloor r < n + 1)%Z).
    { split; apply lt_IZR; [rewrite minus_IZR | rewrite plus_IZR]; lra. }
    lia.
  - destruct (Rlt_dec (/ 2) (r - IZR (Zfloor r))) as [Hgt | Hle].
    + assert (Hz : (n - 2 < Zfloor r < n)%Z).
      { split; apply lt_IZR; [rewrite minus_IZR |]; lra. }
      lia.
    + exfalso. assert (Hz : (n - 1 < Zfloor r < n)%Z).
      { split; apply lt_IZR; [rewrite minus_IZR |]; lra. }
      lia.
Qed.


Lemma pow2_pos (z : Z) : 0 < powerRZ 2 z.
Proof. apply powerRZ_lt. lra. Qed.

Lemma ln2_pos : 0 < ln 2.
Proof. pose proof ln_lt_2. lra. Qed.


Lemma pow2_of_neg (p : positive) : powerRZ 2 (Zneg p) = / IZR (2 ^ Zpos p).
Proof.
  cbn [powerRZ]. rewrite (pow_IZR 2), positive_nat_Z. reflexivity.
Qed.

(** The binade of a number: [2 ^ m <= |x| < 2 ^ (m + 1)] for
    [m = floor (log2 |x|)], and for no other [m]. *)
Lemma mag_bounds (x : R) :
  x <> 0 ->
  let m := Zfloor (ln (Rabs x) / ln 2) in
  powerRZ 2 m <= Rabs x < powerRZ 2 (m + 1).
Proof.
  intros Hx m. pose proof ln2_pos as Hl.
  assert (Hax : 0 < Rabs x) by (apply Rabs_pos_lt; exact Hx).
  pose proof (Zfloor_bound (ln (Rabs x) / ln 2)) as [H1 H2]. fold m in H1, H2.
  assert (Hq : ln (Rabs x) / ln 2 * ln 2 = ln (Rabs x)) by (field; lra).
  rewrite !powerRZ_Rpower by lra. unfold Rpower.
  clearbody m. split.
  - rewrite <- (exp_ln (Rabs x) Hax). destruct H1 as [H1 | H1].
    + left. apply exp_increasing. rewrite <- Hq. apply Rmult_lt_compat_r; assumption.
    + right. f_equal. rewrite H1. exact Hq.
  - rewrite <- (exp_ln (Rabs x) Hax) at 1. apply exp_increasing.
    rewrite <- Hq, plus_IZR. apply Rmult_lt_compat_r; assumption.
Qed.


Lemma round_0 : Double.round 0 = 0.
Proof.
  unfold Double.round. unfold Rdiv. rewrite Rmult_0_l.
  rewrite (nearestEven_near 0 0) by lra. ring.
Qed.

Lemma round_nonneg (x : R) : 0 <= x -> 0 <= Double.round x.
Proof.
  intros Hx. unfold Double.round.
  pose proof (pow2_pos (Double.ulpExponent x)) as Hq.
  apply Rmult_le_pos; [| lra]. apply IZR_le. apply nearestEven_nonneg.
  apply Rmult_le_pos; [exact Hx |]. left. apply Rinv_0_lt_compat. exact Hq.
Qed.

(** The rounding error is at most half a unit in the last place: [2 ^ -53]
    of the number, or [2 ^ -1075] for the smallest ones. *)
Lemma round_error (x : R) :
  Rabs (Double.round x - x) <= Rabs x / 9007199254740992 + powerRZ 2 (-1075).
Proof.
  destruct (Req_dec x 0) as [-> | Hx].
  - rewrite round_0. replace (0 - 0) with 0 by ring. rewrite Rabs_R0.
    pose proof (pow2_pos (-1075)). lra.
  - unfold Double.round. set (e := Double.ulpExponent x).
    pose proof (pow2_pos e) as Hq.
    pose proof (nearestEven_error (x / powerRZ 2 e)) as Herr.
    assert (Hh : Rabs (IZR (Double.nearestEven (x / powerRZ 2 e)) * powerRZ 2 e - x)
                 <= powerRZ 2 e / 2).
    { replace (IZR (Double.nearestEven (x / powerRZ 2 e)) * powerRZ 2 e - x)
        with ((IZR (Double.nearestEven (x / powerRZ 2 e)) - x / powerRZ 2 e) * powerRZ 2 e)
        by (field; lra).
      rewrite Rabs_mult, (Rabs_right (powerRZ 2 e)) by lra.
      apply Rle_trans with (/ 2 * powerRZ 2 e); [| lra].
      apply Rmult_le_compat_r; lra. }
    apply Rle_trans with (1 := Hh).
    pose proof (mag_bounds x Hx) as [Hm _]. cbn zeta in Hm.
    pose proof (Rabs_pos x) as Hax. pose proof (pow2_pos (-1075)) as Heta.
    unfold e, Double.ulpExponent.
    destruct (Z.max_spec (Zfloor (ln (Rabs x) / ln 2) - 52) (-1074)) as [[_ ->] | [_ ->]].
    + replace (powerRZ 2 (-1074)) with (2 * powerRZ 2 (-1075)); [lra |].
      replace (-1074)%Z with (1 + -1075)%Z by lia.
      rewrite powerRZ_add by lra. rewrite powerRZ_1. reflexivity.
    + replace (Zfloor (ln (Rabs x) / ln 2) - 52)%Z
        with (Zfloor (ln (Rabs x) / ln 2) + - 52)%Z by lia.
      rewrite powerRZ_add by lra.
      replace (powerRZ 2 (-52)) with (/ 4503599627370496).
      * lra.
      * rewrite pow2_of_neg. reflexivity.
Qed.


Lemma abs_pos_eq (x : R) : 0 <= x -> Rabs x = x.
Proof. intros; apply Rabs_right; lra. Qed.


Lemma eta_small : powerRZ 2 (-1075) <= / 9007199254740992.
Proof.
  replace (/ 9007199254740992) with (powerRZ 2 (-53))
    by (rewrite pow2_of_neg; reflexivity).
  rewrite !powerRZ_Rpower by lra. apply Rle_Rpower; [lra |].
  apply IZR_le. lia.
Qed.

Lemma round_within (x B : R) :
  0 <= x <= B ->
  0 <= Double.round x /\
  - ((B + 1) / 9007199254740992) <= Double.round x - x <= (B + 1) / 9007199254740992.
Proof.
  intros [H0 HB]. split; [apply round_nonneg; exact H0 |].
  pose proof (round_error x) as He. pose proof eta_small as Heta.
  rewrite (abs_pos_eq x H0) in He.
  assert (Hb : Rabs (Double.round x - x) <= (B + 1) / 9007199254740992)
    by (apply Rle_trans with (1 := He); lra).
  unfold Rabs in Hb. destruct (Rcase_abs (Double.round x - x)); lra.
Qed.

(** The composite score of scores between 0 and 100 is a whole number
    between 0 and 100, within 1/2 + 10^-12 of the exact weighted sum. *)
Lemma overallScoreOf_close (e r k a : R) :
  0 <= e <= 100 -> 0 <= r <= 100 -> 0 <= k <= 100 -> 0 <= a <= 100 ->
  let s := e * (3 / 10) + r * (3 / 10) + k * (2 / 10) + a * (2 / 10) in
  exists n : Z,
    overallScoreOf e r k a = IZR n /\ (0 <= n <= 100)%Z /\
    Rabs (IZR n - s) <= / 2 + / 1000000000000.
Proof.
  intros He Hr Hk Ha s.
  unfold overallScoreOf, JsMath.round, Double.mul, Double.add.
  destruct (round_within (e * Double.d0_3) 30) as [P1 Q1];
    [unfold Double.d0_3; lra |].
  destruct (round_within (r * Double.d0_3) 30) as [P2 Q2];
    [unfold Double.d0_3; lra |].
  destruct (round_within (k * Double.d0_2) 21) as [P3 Q3];
    [unfold Double.d0_2; lra |].
  destruct (round_within (a * Double.d0_2) 21) as [P4 Q4];
    [unfold Double.d0_2; lra |].
  set (p1 := Double.round (e * Double.d0_3)) in *.
  set (p2 := Double.round (r * Double.d0_3)) in *.
  set (p3 := Double.round (k * Double.d0_2)) in *.
  set (p4 := Double.round (a * Double.d0_2)) in *.
  assert (B1 : 0 <= p1 <= 31) by (unfold Double.d0_3 in Q1; lra).
  assert (B2 : 0 <= p2 <= 31) by (unfold Double.d0_3 in Q2; lra).
  assert (B3 : 0 <= p3 <= 21) by (unfold Double.d0_2 in Q3; lra).
  assert (B4 : 0 <= p4 <= 21) by (unfold Double.d0_2 in Q4; lra).
  destruct (round_within (p1 + p2) 62) as [P5 Q5]; [lra |].
  set (s1 := Double.round (p1 + p2)) in *.
  destruct (round_within (s1 + p3) 84) as [P6 Q6]; [lra |].
  set (s2 := Double.round (s1 + p3)) in *.
  destruct (round_within (s2 + p4) 106) as [P7 Q7]; [lra |].
  set (s3 := Double.round (s2 + p4)) in *.
  assert (Hclose : - / 1000000000000 <= s3 - s <= / 1000000000000).
  { unfold s.
    assert (X1 : - / 10000000000000 <= e * Double.d0_3 - e * (3 / 10) <= 0)
      by (unfold Double.d0_3; lra).
    assert (X2 : - / 10000000000000 <= r * Double.d0_3 - r * (3 / 10) <= 0)
      by (unfold Double.d0_3; lra).
    assert (X3 : 0 <= k * Double.d0_2 - k * (2 / 10) <= / 10000000000000)
      by (unfold Double.d0_2; lra).
    assert (X4 : 0 <= a * Double.d0_2 - a * (2 / 10) <= / 10000000000000)
      by (unfold Double.d0_2; lra).
    lra. }
  exists (Zfloor (s3 + / 2)). split; [reflexivity |].
  pose proof (Zfloor_bound (s3 + / 2)) as [F1 F2].
  assert (Hs : 0 <= s <= 100) by (unfold s; lra).
  split; [split |].
  - apply Zfloor_lub. lra.
  - apply Z.lt_succ_r. apply lt_IZR. rewrite succ_IZR. lra.
  - apply Rabs_le. lra.
Qed.

Lemma overallScoreOf_range (e r k a : R) :
  0 <= e <= 100 -> 0 <= r <= 100 -> 0 <= k <= 100 -> 0 <= a <= 100 ->
  0 <= overallScoreOf e r k a <= 100.
Proof.
  intros He Hr Hk Ha.
  destruct (overallScoreOf_close e r k a He Hr Hk Ha) as (n & -> & [Hlo Hhi] & _).
  split; [apply (IZR_le 0) | apply (IZR_le n 100)]; assumption.
Qed.


(** ** One frame through the pipeline *)

Ltac run_m :=
  cbn [bind lift ret getData modifyData modifyDom modifyFrameCount
       setFeedback updateMetricDisplay updateScoreRing updateBar
       updateProgressBars updateFeedback updateStatusMessages
       drawAngleIndicator obind prop_x prop_y
       fst snd frameCount analysisData dom
       form_feedback metric score_ring bar elbow_status release_status
       knee_status alignment_status
       elbowAngles releaseHeights kneeAngles alignmentScores].

(** The metrics exist exactly when the seven landmarks read are there. *)
Lemma frameMetrics_ok_inv (landmarks : list Slot) (fm : FrameMetrics) :
  frameMetrics landmarks = Ok fm ->
  exists ls rs re rw rh rk ra,
    index landmarks 11 = Some ls /\ index landmarks 12 = Some rs /\
    index landmarks 14 = Some re /\ index landmarks 16 = Some rw /\
    index landmarks 24 = Some rh /\ index landmarks 26 = Some rk /\
    index landmarks 28 = Some ra.
Proof.
  unfold frameMetrics. intros H.
  destruct (index landmarks 11) as [ls |], (index landmarks 12) as [rs |],
           (index landmarks 14) as [re |], (index landmarks 16) as [rw |],
           (index landmarks 24) as [rh |], (index landmarks 26) as [rk |],
           (index landmarks 28) as [ra |];
    try discriminate H.
  exists ls, rs, re, rw, rh, rk, ra. repeat split; reflexivity.
Qed.

Lemma frameMetrics_missing (landmarks : list Slot) :
  missesJoint landmarks -> frameMetrics landmarks = Throw TypeError.
Proof.
  intros [i [Hin Hnone]].
  destruct (frameMetrics landmarks) as [fm | []] eqn:Hfm; [| reflexivity].
  destruct (frameMetrics_ok_inv _ _ Hfm)
    as (ls & rs & re & rw & rh & rk & ra & H11 & H12 & H14 & H16 & H24 & H26 & H28).
  cbn [requiredJoints In] in Hin.
  repeat (destruct Hin as [<- | Hin]; [congruence |]). contradiction.
Qed.

Lemma analyze_throw (landmarks : list Slot) (st : State) :
  frameMetrics landmarks = Throw TypeError ->
  analyzeShootingForm landmarks st = (Throw TypeError, st).
Proof.
  unfold frameMetrics, analyzeShootingForm. intros H.
  destruct (calculateAngle (index landmarks 12) (index landmarks 14) (index landmarks 16))
    as [e | []]; [| reflexivity].
  destruct (calculateReleaseAngle (index landmarks 12) (index landmarks 16))
    as [r | []]; [| reflexivity].
  destruct (calculateAngle (index landmarks 24) (index landmarks 26) (index landmarks 28))
    as [k | []]; [| reflexivity].
  destruct (calculateAlignment (index landmarks 11) (index landmarks 12))
    as [a | []]; [| reflexivity].
  discriminate H.
Qed.

(** What a measured frame leaves behind: the queues of [recordFrame], the
    same frame counter, and a page whose texts are those of the smoothed
    metrics. *)
Lemma analyze_ok (landmarks : list Slot) (fm : FrameMetrics) (st : State) :
  frameMetrics landmarks = Ok fm ->
  exists d',
    analyzeShootingForm landmarks st =
      (Ok tt, mkState (frameCount st) (recordFrame fm (analysisData st)) d') /\
    let avg m := average (queue m (recordFrame fm (analysisData st))) in
    let overall :=
      overallScoreOf (scoreElbowAngle (avg Elbow)) (scoreReleaseHeight (avg Release))
                     (scoreKneeAngle (avg Knee)) (avg Alignment) in
    form_feedback d' = Some (feedbackOf overall) /\
    elbow_status d' = Some (elbowStatusOf (avg Elbow)) /\
    release_status d' = Some (releaseStatusOf (avg Release)) /\
    knee_status d' = Some (kneeStatusOf (avg Knee)) /\
    alignment_status d' = Some (alignmentStatusOf (avg Alignment)) /\
    metric d' overall_score = Shown overall /\
    option_map width (bar d' alignment_bar) = Some (avg Alignment).
Proof.
  intros Hfm.
  destruct (frameMetrics_ok_inv _ _ Hfm)
    as (ls & rs & re & rw & rh & rk & ra & H11 & H12 & H14 & H16 & H24 & H26 & H28).
  unfold frameMetrics in Hfm. unfold analyzeShootingForm.
  rewrite H11, H12, H14, H16, H24, H26, H28 in *.
  rewrite !calculateAngle_some, calculateReleaseAngle_some, calculateAlignment_some in *.
  cbn [obind] in Hfm. injection Hfm as <-.
  unfold recordFrame, slideAll.
  cbn [elbowAngle releaseAngle kneeAngle alignmentScore pushAll elbowAngles].
  run_m. cbn [pushAll elbowAngles].
  destruct (Nat.ltb 30 (length (elbowAngles (analysisData st) ++ _))); run_m;
    (eexists; split; [reflexivity |]);
    cbn [queue pushAll shiftAll elbowAngles releaseHeights kneeAngles alignmentScores
         form_feedback metric score_ring bar elbow_status release_status
         knee_status alignment_status MetricId_eqb BarId_eqb option_map width];
    repeat split; reflexivity.
Qed.

Lemma onPoseResults_none (results : Results) (st : State) :
  poseLandmarks results = None ->
  onPoseResults results st = setFeedback FbNoPerson st.
Proof. unfold onPoseResults. intros ->. reflexivity. Qed.

Lemma onPoseResults_some (results : Results) (landmarks : list Slot)
      (st : State) :
  poseLandmarks results = Some landmarks ->
  onPoseResults results st =
    match drawPose landmarks with
    | Ok _ =>
        match analyzeShootingForm landmarks st with
        | (Ok _, st') =>
            (Ok tt, mkState (S (frameCount st')) (analysisData st') (dom st'))
        | (Throw e, st') => (Throw e, st')
        end
    | Throw e => (Throw e, st)
    end.
Proof.
  unfold onPoseResults, bind, lift, modifyFrameCount. intros ->.
  destruct (drawPose landmarks) as [[] | e]; [| reflexivity].
  destruct (analyzeShootingForm landmarks st) as [[[] | e] st']; reflexivity.
Qed.

Lemma onPoseResults_valid (results : Results) (fm : FrameMetrics) (st : State) :
  validFrame results fm ->
  exists d',
    onPoseResults results st =
      (Ok tt, mkState (S (frameCount st)) (recordFrame fm (analysisData st)) d') /\
    let avg m := average (queue m (recordFrame fm (analysisData st))) in
    let overall :=
      overallScoreOf (scoreElbowAngle (avg Elbow)) (scoreReleaseHeight (avg Release))
                     (scoreKneeAngle (avg Knee)) (avg Alignment) in
    form_feedback d' = Some (feedbackOf overall) /\
    elbow_status d' = Some (elbowStatusOf (avg Elbow)) /\
    release_status d' = Some (releaseStatusOf (avg Release)) /\
    knee_status d' = Some (kneeStatusOf (avg Knee)) /\
    alignment_status d' = Some (alignmentStatusOf (avg Alignment)) /\
    metric d' overall_score = Shown overall /\
    option_map width (bar d' alignment_bar) = Some (avg Alignment).
Proof.
  intros (landmarks & Hpose & Hdraw & Hfm).
  destruct (analyze_ok landmarks fm st Hfm) as (d' & Hrun & Hpage).
  exists d'. split; [| exact Hpage].
  rewrite (onPoseResults_some _ _ _ Hpose), Hdraw, Hrun. reflexivity.
Qed.

(** Whatever the frame, the queues afterwards are the old ones or the old
    ones with one valid frame recorded, and the counter follows. *)
Lemma onPoseResults_data (results : Results) (st : State) :
  let st' := snd (onPoseResults results st) in
  (analysisData st' = analysisData st /\ frameCount st' = frameCount st) \/
  (exists fm, validFrame results fm /\
              analysisData st' = recordFrame fm (analysisData st) /\
              frameCount st' = S (frameCount st)).
Proof.
  cbn zeta.
  destruct (poseLandmarks results) as [landmarks |] eqn:Hpose.
  - destruct (drawPose landmarks) as [[] | []] eqn:Hdraw.
    + destruct (frameMetrics landmarks) as [fm | []] eqn:Hfm.
      * right. exists fm.
        assert (Hv : validFrame results fm) by (exists landmarks; auto).
        split; [exact Hv |].
        destruct (onPoseResults_valid results fm st Hv) as (d' & -> & _).
        split; reflexivity.
      * left. rewrite (onPoseResults_some _ _ _ Hpose), Hdraw.
        rewrite (analyze_throw _ _ Hfm). split; reflexivity.
    + left. rewrite (onPoseResults_some _ _ _ Hpose), Hdraw. split; reflexivity.
  - left. rewrite (onPoseResults_none _ _ Hpose). split; reflexivity.
Qed.

Lemma resetStats_run (st : State) :
  exists d',
    resetStats st = (Ok tt, mkState 0 emptyData d') /\
    form_feedback d' = Some FbStatsReset /\
    (forall i, metric d' i = Dashes).
Proof.
  unfold resetStats. run_m. eexists. split; [reflexivity |].
  cbn [form_feedback metric]. split; [reflexivity |].
  intros []; reflexivity.
Qed.

(** ** The sliding windows *)

Lemma sameLength_empty : sameLength emptyData.
Proof. intros []; reflexivity. Qed.

Lemma recordFrame_queue (fm : FrameMetrics) (d : AnalysisData) (m : Metric) :
  sameLength d ->
  queue m (recordFrame fm d) = slide30 (queue m d) (raw m fm).
Proof.
  intros Hsame. unfold recordFrame, slideAll, slide30.
  cbn [pushAll elbowAngles].
  assert (Hlen : length (queue m d ++ [raw m fm]) =
                 length (elbowAngles d ++ [elbowAngle fm])).
  { rewrite !length_app. cbn [length]. rewrite (Hsame m). reflexivity. }
  rewrite Hlen.
  destruct (Nat.ltb 30 (length (elbowAngles d ++ [elbowAngle fm])));
    destruct m; reflexivity.
Qed.

Lemma slide30_length_step (q : list R) (v : R) :
  length (slide30 q v) =
  if Nat.ltb 30 (S (length q)) then length q else S (length q).
Proof.
  unfold slide30. rewrite length_app. cbn [length]. rewrite Nat.add_1_r.
  destruct (Nat.ltb 30 (S (length q))); [| rewrite length_app; cbn [length]; lia].
  destruct q; reflexivity || (cbn [app tl length]; rewrite length_app; cbn [length]; lia).
Qed.

Lemma slide30_length (q : list R) (v : R) :
  (length q <= 30)%nat -> (length (slide30 q v) <= 30)%nat.
Proof.
  intros H. rewrite slide30_length_step.
  destruct (Nat.ltb 30 (S (length q))) eqn:E; [assumption |].
  apply Nat.ltb_ge in E. assumption.
Qed.

Lemma recordFrame_sameLength (fm : FrameMetrics) (d : AnalysisData) :
  sameLength d -> sameLength (recordFrame fm d).
Proof.
  intros Hsame m.
  change (elbowAngles (recordFrame fm d)) with (queue Elbow (recordFrame fm d)).
  rewrite !recordFrame_queue by assumption.
  rewrite !slide30_length_step. cbn [queue]. rewrite (Hsame m). reflexivity.
Qed.

(** The invariant of the analysis state: four queues of one length, at most
    30. *)
Lemma reachable_inv (st : State) :
  reachable st ->
  sameLength (analysisData st) /\ (length (elbowAngles (analysisData st)) <= 30)%nat.
Proof.
  induction 1 as [d | st results Hreach [IHs IHl] | st Hreach _].
  - split; [apply sameLength_empty | cbn; lia].
  - destruct (onPoseResults_data results st) as [[-> _] | (fm & _ & -> & _)].
    + split; assumption.
    + split; [apply recordFrame_sameLength; assumption |].
      change (elbowAngles (recordFrame fm (analysisData st)))
        with (queue Elbow (recordFrame fm (analysisData st))).
      rewrite recordFrame_queue by assumption. apply slide30_length. assumption.
  - destruct (resetStats_run st) as (d' & -> & _).
    split; [apply sameLength_empty | cbn; lia].
Qed.

Lemma lastn_short (n : nat) (l : list R) : (length l <= n)%nat -> lastn n l = l.
Proof.
  intros H. unfold lastn. replace (length l - n)%nat with 0%nat by lia. reflexivity.
Qed.

Lemma lastn_app (n : nat) (l r : list R) :
  lastn n (lastn n l ++ r) = lastn n (l ++ r).
Proof.
  destruct (Nat.le_gt_cases (length l) n) as [Hle | Hgt].
  - rewrite (lastn_short n l Hle). reflexivity.
  - unfold lastn. rewrite !length_app, length_skipn.
    replace (length l - (length l - n) + length r - n)%nat with (length r) by lia.
    replace (length l + length r - n)%nat with (length r + (length l - n))%nat by lia.
    rewrite <- skipn_skipn. rewrite (skipn_app (length l - n) l r).
    replace (length l - n - length l)%nat with 0%nat by lia. reflexivity.
Qed.

Lemma slide30_lastn (q : list R) (v : R) :
  (length q <= 30)%nat -> slide30 q v = lastn 30 (q ++ [v]).
Proof.
  intros H. unfold slide30, lastn. rewrite length_app. cbn [length].
  destruct (Nat.ltb 30 (length q + 1)) eqn:E.
  - apply Nat.ltb_lt in E.
    replace (length q + 1 - 30)%nat with 1%nat by lia.
    destruct (q ++ [v]); reflexivity.
  - apply Nat.ltb_ge in E.
    replace (length q + 1 - 30)%nat with 0%nat by lia. reflexivity.
Qed.

(** A queue fed through the window holds the last 30 of everything it was
    given. *)
Lemma slide30_fold (vs q : list R) :
  (length q <= 30)%nat -> fold_left slide30 vs q = lastn 30 (q ++ vs).
Proof.
  revert q. induction vs as [| v vs IH]; intros q H.
  - cbn [fold_left]. rewrite app_nil_r. symmetry. apply lastn_short. assumption.
  - cbn [fold_left]. rewrite IH by (apply slide30_length; assumption).
    rewrite slide30_lastn by assumption. rewrite lastn_app.
    rewrite <- app_assoc. reflexivity.
Qed.

Lemma slide30_fold_31 (vs q : list R) :
  (length q <= 30)%nat -> length vs = 31%nat -> fold_left slide30 vs q = tl vs.
Proof.
  intros Hq Hvs. rewrite slide30_fold by assumption.
  unfold lastn. rewrite length_app, Hvs.
  replace (length q + 31 - 30)%nat with (1 + length q)%nat by lia.
  rewrite <- skipn_skipn. rewrite skipn_app, skipn_all, Nat.sub_diag.
  destruct vs; reflexivity.
Qed.

(** ** The mean *)

Lemma fold_left_sum (l : list R) (a : R) :
  fold_left (fun a b => a + b) l a = a + sum l.
Proof.
  revert a. induction l as [| v l IH]; intros a; cbn [fold_left sum fold_right].
  - ring.
  - rewrite IH. unfold sum. ring.
Qed.

Lemma average_sum (l : list R) :
  l <> [] -> average l = sum l / INR (length l).
Proof.
  intros H. unfold average. destruct l as [| v l]; [contradiction |].
  cbn [length Nat.eqb]. rewrite fold_left_sum. f_equal. ring.
Qed.

Lemma average_singleton (v : R) : average [v] = v.
Proof.
  unfold average. cbn [length Nat.eqb fold_left INR]. field.
Qed.

(** ** Sequences of frames *)

Lemma runFrames_valid (frames : list Results) (fms : list FrameMetrics) (st : State) :
  Forall2 validFrame frames fms ->
  sameLength (analysisData st) ->
  sameLength (analysisData (runFrames frames st)) /\
  frameCount (runFrames frames st) = (frameCount st + length frames)%nat /\
  forall m, queue m (analysisData (runFrames frames st)) =
            fold_left slide30 (map (raw m) fms) (queue m (analysisData st)).
Proof.
  intros Hall. revert st.
  induction Hall as [| results fm frames fms Hv Hall IH]; intros st Hsame.
  - cbn. split; [assumption |]. split; [lia | reflexivity].
  - cbn [runFrames map fold_left length].
    destruct (onPoseResults_valid results fm st Hv) as (d' & Hrun & _).
    rewrite Hrun. cbn [snd].
    destruct (IH (mkState (S (frameCount st)) (recordFrame fm (analysisData st)) d'))
      as (IH1 & IH2 & IH3).
    { cbn [analysisData]. apply recordFrame_sameLength. assumption. }
    split; [exact IH1 |]. split.
    + rewrite IH2. cbn [frameCount]. lia.
    + intros m. rewrite IH3. cbn [analysisData].
      rewrite recordFrame_queue by assumption. reflexivity.
Qed.

Lemma runFrames_none (frames : list Results) (st : State) :
  Forall (fun r => poseLandmarks r = None) frames ->
  analysisData (runFrames frames st) = analysisData st /\
  frameCount (runFrames frames st) = frameCount st /\
  metric (dom (runFrames frames st)) = metric (dom st) /\
  (frames <> [] -> form_feedback (dom (runFrames frames st)) = Some FbNoPerson).
Proof.
  intros Hall. revert st.
  induction Hall as [| results frames Hnone Hall IH]; intros st.
  - cbn. repeat split; try reflexivity. intros H; contradiction.
  - cbn [runFrames]. rewrite (onPoseResults_none _ _ Hnone).
    destruct (IH (snd (setFeedback FbNoPerson st))) as (IH1 & IH2 & IH3 & IH4).
    rewrite IH1, IH2, IH3. repeat split; try reflexivity.
    intros _. destruct frames as [| r frames'].
    + reflexivity.
    + apply IH4. discriminate.
Qed.

Lemma samplePose_valid (ly : R) :
  validFrame (mkResults (Some (samplePose ly))) (sampleMetrics ly).
Proof.
  exists (samplePose ly). split; [reflexivity |]. split; reflexivity.
Qed.

Lemma truncatedPose_missesJoint : missesJoint truncatedPose.
Proof.
  exists 16%nat. split; [cbn; tauto | reflexivity].
Qed.

Lemma Forall2_repeat {A B : Type} (P : A -> B -> Prop) (a : A) (b : B) (n : nat) :
  P a b -> Forall2 P (repeat a n) (repeat b n).
Proof. intros H. induction n; cbn; constructor; assumption. Qed.

(** ** The claims on the pipeline *)

(** C1, as the code has it: [onPoseResults] tests the landmark array only
    for being there.  On a frame whose array lacks one of the joints read by
    [analyzeShootingForm] (a shoulder, or the right elbow, wrist, hip, knee or
    ankle) the first read of a missing joint throws a [TypeError], which
    leaves the callback; nothing has been pushed by then, so the four history
    queues and the frame counter are as they were, and so is the page: no
    no-person message is written. *)
Theorem C1_missing_joint_throws (landmarks : list Slot) (st : State) :
  missesJoint landmarks ->
  onPoseResults (mkResults (Some landmarks)) st = (Throw TypeError, st).
Proof.
  intros Hmiss.
  rewrite (onPoseResults_some (mkResults (Some landmarks)) landmarks st eq_refl).
  destruct (drawPose landmarks) as [[] | []]; [| reflexivity].
  rewrite (analyze_throw _ _ (frameMetrics_missing _ Hmiss)). reflexivity.
Qed.

(** C1 on a pose array of 16 entries, which stops before the right wrist. *)
Lemma C1_missing_joint_throws_witness :
  onPoseResults (mkResults (Some truncatedPose)) (initialState blankPage) =
  (Throw TypeError, initialState blankPage).
Proof.
  exact (C1_missing_joint_throws truncatedPose (initialState blankPage)
           truncatedPose_missesJoint).
Defined.

(** The claim C1 as stated fails on a pose array of 16 entries, on the page
    as loaded: the right wrist is missing, the frame ends in a [TypeError]
    and the page does not show the no-person message. *)
Lemma C1_counterexample :
  let out := onPoseResults (mkResults (Some truncatedPose)) (initialState blankPage) in
  index truncatedPose 16 = None /\
  fst out = Throw TypeError /\
  form_feedback (dom (snd out)) <> Some FbNoPerson.
Proof.
  cbn zeta.
  rewrite (onPoseResults_some (mkResults (Some truncatedPose)) truncatedPose _ eq_refl).
  change (drawPose truncatedPose) with (@Ok unit tt). cbn iota.
  rewrite (analyze_throw truncatedPose _ eq_refl).
  cbn [fst snd]. split; [reflexivity |]. split; [reflexivity |].
  cbn. discriminate.
Qed.

(** C2: in a reachable state, a valid frame appends its raw value to each
    history queue and drops the oldest value if the queue then has more than
    30, so that no queue is longer than 30 afterwards; after 31 valid frames
    in a row each queue holds the raw values of the last 30 of them, its
    smoothed value is their sum divided by 30, and the value of the first of
    the 31 frames plays no part in it. *)
Theorem C2_sliding_window (st : State) :
  reachable st ->
  (forall results fm, validFrame results fm ->
     forall m,
       let q' := queue m (analysisData (snd (onPoseResults results st))) in
       q' = slide30 (queue m (analysisData st)) (raw m fm) /\
       (length q' <= 30)%nat) /\
  (forall frames fms,
     Forall2 validFrame frames fms -> length frames = 31%nat ->
     forall m,
       let vs := map (raw m) fms in
       queue m (analysisData (runFrames frames st)) = tl vs /\
       length (tl vs) = 30%nat /\
       smoothed m (runFrames frames st) = sum (tl vs) / 30) /\
  (forall frames fms frames' fms',
     Forall2 validFrame frames fms -> length frames = 31%nat ->
     Forall2 validFrame frames' fms' -> length frames' = 31%nat ->
     forall m,
       tl (map (raw m) fms) = tl (map (raw m) fms') ->
       smoothed m (runFrames frames st) = smoothed m (runFrames frames' st)).
Proof.
  intros Hreach. destruct (reachable_inv st Hreach) as [Hsame Hlen].
  assert (Hlenm : forall m, (length (queue m (analysisData st)) <= 30)%nat).
  { intros m. rewrite (Hsame m). assumption. }
  assert (H31 : forall frames fms,
     Forall2 validFrame frames fms -> length frames = 31%nat ->
     forall m, queue m (analysisData (runFrames frames st)) = tl (map (raw m) fms) /\
               length (tl (map (raw m) fms)) = 30%nat).
  { intros frames fms Hall Hn m.
    destruct (runFrames_valid frames fms st Hall Hsame) as (_ & _ & Hq).
    assert (Hvs : length (map (raw m) fms) = 31%nat).
    { rewrite length_map, <- (Forall2_length Hall). assumption. }
    rewrite Hq. split.
    - apply slide30_fold_31; [apply Hlenm | assumption].
    - destruct (map (raw m) fms); cbn in *; lia. }
  split; [| split].
  - intros results fm Hv m. cbn zeta.
    destruct (onPoseResults_valid results fm st Hv) as (d' & -> & _).
    cbn [snd analysisData]. rewrite recordFrame_queue by assumption.
    split; [reflexivity |]. apply slide30_length. apply Hlenm.
  - intros frames fms Hall Hn m. cbn zeta.
    destruct (H31 frames fms Hall Hn m) as [Hq Hl].
    split; [exact Hq |]. split; [exact Hl |].
    unfold smoothed. rewrite Hq, average_sum.
    + rewrite Hl. rewrite INR_IZR_INZ. reflexivity.
    + intros E. rewrite E in Hl. discriminate Hl.
  - intros frames fms frames' fms' Hall Hn Hall' Hn' m Htl.
    unfold smoothed.
    rewrite (proj1 (H31 frames fms Hall Hn m)).
    rewrite (proj1 (H31 frames' fms' Hall' Hn' m)).
    rewrite Htl. reflexivity.
Qed.

(** C2 on the page as loaded and 31 frames of the sample pose. *)
Lemma C2_sliding_window_witness :
  let frames := repeat (mkResults (Some (samplePose (1 / 2)))) 31 in
  let vs := map (raw Alignment) (repeat (sampleMetrics (1 / 2)) 31) in
  queue Alignment (analysisData (runFrames frames (initialState blankPage))) = tl vs /\
  length (tl vs) = 30%nat /\
  smoothed Alignment (runFrames frames (initialState blankPage)) = sum (tl vs) / 30.
Proof.
  exact (proj1 (proj2 (C2_sliding_window (initialState blankPage) (reach_init blankPage)))
           (repeat (mkResults (Some (samplePose (1 / 2)))) 31)
           (repeat (sampleMetrics (1 / 2)) 31)
           (Forall2_repeat validFrame _ _ 31 (samplePose_valid (1 / 2)))
           eq_refl Alignment).
Defined.

(** C7: a sequence of frames without a detected pose leaves the four
    history queues as they were, in length and in contents, hence the
    smoothed values too; the frame counter does not move, the metric
    displays keep their texts, and the page shows the no-person message. *)
Theorem C7_no_detection_frames (frames : list Results) (st : State) :
  Forall (fun r => poseLandmarks r = None) frames ->
  analysisData (runFrames frames st) = analysisData st /\
  (forall m, queue m (analysisData (runFrames frames st)) = queue m (analysisData st)) /\
  (forall m, length (queue m (analysisData (runFrames frames st))) =
             length (queue m (analysisData st))) /\
  (forall m, smoothed m (runFrames frames st) = smoothed m st) /\
  frameCount (runFrames frames st) = frameCount st /\
  metric (dom (runFrames frames st)) = metric (dom st) /\
  (frames <> [] -> form_feedback (dom (runFrames frames st)) = Some FbNoPerson).
Proof.
  intros Hall.
  destruct (runFrames_none frames st Hall) as (Hd & Hc & Hm & Hf).
  unfold smoothed. rewrite Hd.
  repeat split; try reflexivity; assumption.
Qed.

(** C7 on two frames without detection after the page has loaded. *)
Lemma C7_no_detection_frames_witness :
  analysisData (runFrames [mkResults None; mkResults None] (initialState blankPage)) =
  analysisData (initialState blankPage).
Proof.
  refine (proj1 (C7_no_detection_frames [mkResults None; mkResults None]
                   (initialState blankPage) _)).
  repeat constructor.
Defined.

(** C8: [resetStats] empties the four history queues and sets the frame
    counter to 0 in every state; the first valid frame after it leaves one
    value in each queue, and the smoothed value of each metric is then that
    frame's raw value. *)
Theorem C8_reset_then_first_frame (st : State) :
  let st0 := snd (resetStats st) in
  fst (resetStats st) = Ok tt /\
  analysisData st0 = emptyData /\
  (forall m, queue m (analysisData st0) = []) /\
  frameCount st0 = 0%nat /\
  (forall results fm, validFrame results fm ->
     let st1 := snd (onPoseResults results st0) in
     fst (onPoseResults results st0) = Ok tt /\
     forall m, queue m (analysisData st1) = [raw m fm] /\
               smoothed m st1 = raw m fm).
Proof.
  cbn zeta. destruct (resetStats_run st) as (d0 & -> & _). cbn [fst snd].
  split; [reflexivity |]. split; [reflexivity |].
  split; [intros []; reflexivity |]. split; [reflexivity |].
  intros results fm Hv.
  destruct (onPoseResults_valid results fm (mkState 0 emptyData d0) Hv) as (d' & -> & _).
  cbn [fst snd]. split; [reflexivity |].
  intros m. unfold smoothed. cbn [analysisData].
  assert (Hq : queue m (recordFrame fm emptyData) = [raw m fm]).
  { rewrite recordFrame_queue by apply sameLength_empty. destruct m; reflexivity. }
  rewrite Hq. split; [reflexivity | apply average_singleton].
Qed.

(** C8 on the sample pose with the left shoulder 0.05 above the right. *)
Lemma C8_reset_then_first_frame_witness :
  smoothed Alignment
    (snd (onPoseResults (mkResults (Some (samplePose (55 / 100))))
            (snd (resetStats (initialState blankPage))))) =
  raw Alignment (sampleMetrics (55 / 100)).
Proof.
  exact (proj2 (proj2 (proj2 (proj2 (proj2 (proj2
           (C8_reset_then_first_frame (initialState blankPage)))))
           (mkResults (Some (samplePose (55 / 100)))) (sampleMetrics (55 / 100))
           (samplePose_valid (55 / 100))) Alignment)).
Defined.



(** C10: the four history queues have one length in every reachable state.
    The empty queues have it; a frame, whatever it is, keeps it, and so does
    a reset.  A valid frame pushes one value on each queue and shifts all
    four exactly when the elbow queue has grown past 30 ([recordFrame]);
    since the lengths agree, that is each queue sliding on its own length. *)
Theorem C10_queues_same_length :
  sameLength emptyData /\
  (forall st results,
     sameLength (analysisData st) ->
     sameLength (analysisData (snd (onPoseResults results st)))) /\
  (forall st, sameLength (analysisData (snd (resetStats st)))) /\
  (forall st, reachable st -> sameLength (analysisData st)) /\
  (forall st results fm,
     validFrame results fm ->
     analysisData (snd (onPoseResults results st)) = recordFrame fm (analysisData st) /\
     (sameLength (analysisData st) ->
      forall m, queue m (analysisData (snd (onPoseResults results st))) =
                slide30 (queue m (analysisData st)) (raw m fm))).
Proof.
  split; [apply sameLength_empty |]. split; [| split; [| split]].
  - intros st results Hsame.
    destruct (onPoseResults_data results st) as [[-> _] | (fm & _ & -> & _)].
    + assumption.
    + apply recordFrame_sameLength. assumption.
  - intros st. destruct (resetStats_run st) as (d' & -> & _).
    apply sameLength_empty.
  - intros st Hreach. apply (reachable_inv st Hreach).
  - intros st results fm Hv.
    destruct (onPoseResults_valid results fm st Hv) as (d' & -> & _).
    cbn [snd analysisData]. split; [reflexivity |].
    intros Hsame m. apply recordFrame_queue. assumption.
Qed.

(** C10 on the state after a reset and one frame of the sample pose. *)
Lemma C10_queues_same_length_witness :
  sameLength
    (analysisData
       (snd (onPoseResults (mkResults (Some (samplePose (1 / 2))))
               (snd (resetStats (initialState blankPage)))))).
Proof.
  apply (proj1 (proj2 (proj2 (proj2 C10_queues_same_length)))).
  apply reach_frame. apply reach_reset. apply reach_init.
Defined.

(** ** The composite score on the pipeline *)









(** * Further properties of the code *)

(** ** Geometry *)

(** X4: A wrist level with the shoulder or below it gives a release angle of
    0, and the angle is the same for a wrist mirrored to the other side of
    the shoulder. *)
Theorem calculateReleaseAngle_floor_and_mirror (s w : Landmark) :
  (y s <= y w -> calculateReleaseAngle (Some s) (Some w) = Ok 0) /\
  calculateReleaseAngle (Some s) (Some (mkLandmark (2 * x s - x w) (y w))) =
  calculateReleaseAngle (Some s) (Some w).
Proof.
  rewrite !calculateReleaseAngle_some. cbn [x y]. split.
  - intros Hlow. f_equal. apply Rmax_left.
    pose proof (Rabs_pos (x s - x w)) as Hsep.
    assert (H : JsMath.atan2 (y s - y w) (Rabs (x s - x w)) <= 0).
    { apply Rle_trans with (JsMath.atan2 0 (Rabs (x s - x w))).
      - apply atan2_monotone; lra.
      - unfold JsMath.atan2.
        destruct (Rlt_dec 0 (Rabs (x s - x w))).
        + unfold Rdiv. rewrite Rmult_0_l, atan_0. lra.
        + destruct (Rlt_dec (Rabs (x s - x w)) 0); [lra |].
          destruct (Rlt_dec 0 0); [lra |]. destruct (Rlt_dec 0 0); lra. }
    pose proof (degrees_le _ 0 H) as Hd.
    replace (0 * 180 / PI) with 0 in Hd by (unfold Rdiv; ring). exact Hd.
  - replace (x s - (2 * x s - x w)) with (- (x s - x w)) by ring.
    rewrite Rabs_Ropp. reflexivity.
Qed.

Lemma calculateReleaseAngle_floor_and_mirror_witness :
  calculateReleaseAngle (Some (mkLandmark (1 / 2) (3 / 10)))
                        (Some (mkLandmark (6 / 10) (5 / 10))) = Ok 0.
Proof.
  refine (proj1 (calculateReleaseAngle_floor_and_mirror
                   (mkLandmark (1 / 2) (3 / 10)) (mkLandmark (6 / 10) (5 / 10))) _).
  cbn [y]. lra.
Defined.

(** ** Scoring *)

(** X5: Each scoring function returns a value between 0 and 100 on every
    number, negative and very large ones included. *)
Theorem scores_between_0_and_100 (a : R) :
  0 <= scoreElbowAngle a <= 100 /\
  0 <= scoreReleaseHeight a <= 100 /\
  0 <= scoreKneeAngle a <= 100.
Proof.
  split; [| split].
  - pose proof (Rabs_pos (a - 90)) as Hpos.
    destruct (Rle_lt_dec (Rabs (a - 90)) 10) as [Hnear | Hfar].
    + rewrite scoreElbowAngle_near by assumption. lra.
    + rewrite scoreElbowAngle_far by assumption.
      split; [apply Rmax_l | apply Rmax_lub; lra].
  - destruct (Rlt_le_dec a 45) as [Hlow | Hge].
    + rewrite scoreReleaseHeight_below by assumption.
      split; [apply Rmax_l | apply Rmax_lub; lra].
    + destruct (Rle_lt_dec a 60) as [Hin | Hhigh].
      * rewrite scoreReleaseHeight_band by lra. lra.
      * rewrite scoreReleaseHeight_above by assumption.
        split; [apply Rmax_l | apply Rmax_lub; lra].
  - destruct (Rlt_le_dec a 100) as [Hlow | Hge].
    + rewrite scoreKneeAngle_below by assumption.
      split; [apply Rmax_l | apply Rmax_lub; lra].
    + destruct (Rle_lt_dec a 130) as [Hin | Hhigh].
      * rewrite scoreKneeAngle_band by lra. lra.
      * rewrite scoreKneeAngle_above by assumption.
        split; [apply Rmax_l | apply Rmax_lub; lra].
Qed.

Lemma Rmax_0_mono (u v : R) : u <= v -> Rmax 0 u <= Rmax 0 v.
Proof.
  intros H. apply Rmax_lub; [apply Rmax_l |].
  apply Rle_trans with v; [assumption | apply Rmax_r].
Qed.

Lemma Rmax_0_zero (u : R) : Rmax 0 u = 0 <-> u <= 0.
Proof.
  split; intros H.
  - rewrite <- H. apply Rmax_r.
  - apply Rmax_left. assumption.
Qed.

Lemma scoreElbowAngle_deviation (a : R) :
  scoreElbowAngle a =
  if Rle_dec (Rabs (a - 90)) 10 then 100 - 5 * Rabs (a - 90)
  else Rmax 0 (50 - 2 * (Rabs (a - 90) - 10)).
Proof.
  destruct (Rle_dec (Rabs (a - 90)) 10).
  - apply scoreElbowAngle_near. assumption.
  - apply scoreElbowAngle_far. lra.
Qed.

(** X6: The elbow score falls as the elbow angle moves away from 90 degrees, on
    either side alike: an angle at least as far from 90 never scores more.
    The score is 0 exactly from 35 degrees of deviation on. *)
Theorem scoreElbowAngle_decays (a1 a2 : R) :
  (Rabs (a1 - 90) <= Rabs (a2 - 90) -> scoreElbowAngle a2 <= scoreElbowAngle a1) /\
  (Rabs (a1 - 90) = Rabs (a2 - 90) -> scoreElbowAngle a1 = scoreElbowAngle a2) /\
  (scoreElbowAngle a1 = 0 <-> 35 <= Rabs (a1 - 90)).
Proof.
  pose proof (Rabs_pos (a1 - 90)) as H1. pose proof (Rabs_pos (a2 - 90)) as H2.
  split; [| split].
  - intros Hle. rewrite !scoreElbowAngle_deviation.
    destruct (Rle_dec (Rabs (a1 - 90)) 10), (Rle_dec (Rabs (a2 - 90)) 10).
    + lra.
    + apply Rmax_lub; lra.
    + lra.
    + apply Rmax_0_mono. lra.
  - intros Heq. rewrite !scoreElbowAngle_deviation, Heq. reflexivity.
  - rewrite scoreElbowAngle_deviation.
    destruct (Rle_dec (Rabs (a1 - 90)) 10).
    + split; lra.
    + rewrite Rmax_0_zero. split; lra.
Qed.

Lemma scoreElbowAngle_decays_witness :
  scoreElbowAngle 120 <= scoreElbowAngle 95 /\ scoreElbowAngle 50 = 0.
Proof.
  assert (E1 : Rabs (95 - 90) = 5).
  { replace (95 - 90) with 5 by ring. apply Rabs_right. lra. }
  assert (E2 : Rabs (120 - 90) = 30).
  { replace (120 - 90) with 30 by ring. apply Rabs_right. lra. }
  assert (E3 : Rabs (50 - 90) = 40).
  { replace (50 - 90) with (- (40)) by ring. rewrite Rabs_Ropp. apply Rabs_right. lra. }
  split.
  - apply (proj1 (scoreElbowAngle_decays 95 120)). lra.
  - apply (proj2 (proj2 (proj2 (scoreElbowAngle_decays 50 50)))). lra.
Defined.

(** X7: The release and knee scores rise up to their band and fall after it:
    between two angles below the band the larger scores at least as much,
    between two angles above it the smaller does. *)
Theorem band_scores_unimodal (a1 a2 : R) :
  a1 <= a2 ->
  (a2 <= 45 -> scoreReleaseHeight a1 <= scoreReleaseHeight a2) /\
  (60 <= a1 -> scoreReleaseHeight a2 <= scoreReleaseHeight a1) /\
  (a2 <= 100 -> scoreKneeAngle a1 <= scoreKneeAngle a2) /\
  (130 <= a1 -> scoreKneeAngle a2 <= scoreKneeAngle a1).
Proof.
  intros Hle.
  assert (R45 : scoreReleaseHeight 45 = 100) by (apply scoreReleaseHeight_band; lra).
  assert (R60 : scoreReleaseHeight 60 = 100) by (apply scoreReleaseHeight_band; lra).
  assert (K100 : scoreKneeAngle 100 = 100) by (apply scoreKneeAngle_band; lra).
  assert (K130 : scoreKneeAngle 130 = 100) by (apply scoreKneeAngle_band; lra).
  pose proof (scoreReleaseHeight_range a1) as Hr1.
  pose proof (scoreReleaseHeight_range a2) as Hr2.
  pose proof (scoreKneeAngle_range a1) as Hk1.
  pose proof (scoreKneeAngle_range a2) as Hk2.
  repeat split.
  - intros H. destruct (Req_dec a2 45) as [-> | Hne].
    + rewrite R45. lra.
    + rewrite !scoreReleaseHeight_below by lra. apply Rmax_0_mono. lra.
  - intros H. destruct (Req_dec a1 60) as [-> | Hne].
    + rewrite R60. lra.
    + rewrite !scoreReleaseHeight_above by lra. apply Rmax_0_mono. lra.
  - intros H. destruct (Req_dec a2 100) as [-> | Hne].
    + rewrite K100. lra.
    + rewrite !scoreKneeAngle_below by lra. apply Rmax_0_mono. lra.
  - intros H. destruct (Req_dec a1 130) as [-> | Hne].
    + rewrite K130. lra.
    + rewrite !scoreKneeAngle_above by lra. apply Rmax_0_mono. lra.
Qed.

Lemma band_scores_unimodal_witness :
  scoreReleaseHeight 20 <= scoreReleaseHeight 40 /\
  scoreKneeAngle 170 <= scoreKneeAngle 140.
Proof.
  split.
  - apply (proj1 (band_scores_unimodal 20 40 ltac:(lra))). lra.
  - apply (proj2 (proj2 (proj2 (band_scores_unimodal 140 170 ltac:(lra))))). lra.
Defined.

(** X8: The status texts agree with the scores: the release and knee texts are
    the optimal ones exactly when the score is 100, and the elbow text is the
    perfect one exactly when the elbow score is 75 or more. *)
Theorem status_agrees_with_score (a : R) :
  (releaseStatusOf a = ReleaseOptimal <-> scoreReleaseHeight a = 100) /\
  (kneeStatusOf a = KneeGood <-> scoreKneeAngle a = 100) /\
  (elbowStatusOf a = ElbowPerfect <-> 75 <= scoreElbowAngle a).
Proof.
  assert (He : forall e,
             (85 <= e <= 95 -> elbowStatusOf e = ElbowPerfect) /\
             (e < 85 -> elbowStatusOf e = ElbowRaise) /\
             (95 < e -> elbowStatusOf e = ElbowLower)).
  { intros e. unfold elbowStatusOf. repeat split; intros H; decide_cmp; reflexivity. }
  assert (Hr : forall r,
             (45 <= r <= 60 -> releaseStatusOf r = ReleaseOptimal) /\
             (r < 45 -> releaseStatusOf r = ReleaseTooLow) /\
             (60 < r -> releaseStatusOf r = ReleaseTooHigh)).
  { intros r. unfold releaseStatusOf. repeat split; intros H; decide_cmp; reflexivity. }
  assert (Hk : forall k,
             (100 <= k <= 130 -> kneeStatusOf k = KneeGood) /\
             (k < 100 -> kneeStatusOf k = KneeBendMore) /\
             (130 < k -> kneeStatusOf k = KneeTooBent)).
  { intros k. unfold kneeStatusOf. repeat split; intros H; decide_cmp; reflexivity. }
  split; [| split].
  - destruct (Rlt_le_dec a 45) as [Hlow | Hge].
    + rewrite (proj1 (proj2 (Hr a))) by assumption.
      rewrite scoreReleaseHeight_below by assumption.
      split; [discriminate |]. intros H.
      assert (Rmax 0 (a / 45 * 100) < 100) by (apply Rmax_lub_lt; lra). lra.
    + destruct (Rle_lt_dec a 60) as [Hin | Hhigh].
      * rewrite (proj1 (Hr a)) by lra. rewrite scoreReleaseHeight_band by lra.
        split; reflexivity.
      * rewrite (proj2 (proj2 (Hr a))) by assumption.
        rewrite scoreReleaseHeight_above by assumption.
        split; [discriminate |]. intros H.
        assert (Rmax 0 (100 - 3 * (a - 60)) < 100) by (apply Rmax_lub_lt; lra). lra.
  - destruct (Rlt_le_dec a 100) as [Hlow | Hge].
    + rewrite (proj1 (proj2 (Hk a))) by assumption.
      rewrite scoreKneeAngle_below by assumption.
      split; [discriminate |]. intros H.
      assert (Rmax 0 (a / 100 * 100) < 100) by (apply Rmax_lub_lt; lra). lra.
    + destruct (Rle_lt_dec a 130) as [Hin | Hhigh].
      * rewrite (proj1 (Hk a)) by lra. rewrite scoreKneeAngle_band by lra.
        split; reflexivity.
      * rewrite (proj2 (proj2 (Hk a))) by assumption.
        rewrite scoreKneeAngle_above by assumption.
        split; [discriminate |]. intros H.
        assert (Rmax 0 (100 - 2 * (a - 130)) < 100) by (apply Rmax_lub_lt; lra). lra.
  - rewrite scoreElbowAngle_deviation.
    destruct (Rlt_le_dec a 85) as [Hlow | Hge].
    + rewrite (proj1 (proj2 (He a))) by assumption.
      assert (Hd : Rabs (a - 90) = 90 - a).
      { rewrite Rabs_left by lra. ring. }
      rewrite Hd. split; [discriminate |].
      destruct (Rle_dec (90 - a) 10); intros H; [lra |].
      assert (Rmax 0 (50 - 2 * (90 - a - 10)) < 75) by (apply Rmax_lub_lt; lra). lra.
    + destruct (Rle_lt_dec a 95) as [Hin | Hhigh].
      * rewrite (proj1 (He a)) by lra.
        assert (Hd : Rabs (a - 90) <= 5) by (apply Rabs_le; lra).
        destruct (Rle_dec (Rabs (a - 90)) 10); [| lra].
        split; intros _; [lra | reflexivity].
      * rewrite (proj2 (proj2 (He a))) by assumption.
        assert (Hd : Rabs (a - 90) = a - 90) by (apply Rabs_right; lra).
        rewrite Hd. split; [discriminate |].
        destruct (Rle_dec (a - 90) 10); intros H; [lra |].
        assert (Rmax 0 (50 - 2 * (a - 90 - 10)) < 75) by (apply Rmax_lub_lt; lra). lra.
Qed.

Lemma status_agrees_with_score_witness :
  releaseStatusOf 50 = ReleaseOptimal /\ 75 <= scoreElbowAngle 90.
Proof.
  split.
  - apply (proj2 (proj1 (status_agrees_with_score 50))).
    apply scoreReleaseHeight_band. lra.
  - apply (proj1 (proj2 (proj2 (status_agrees_with_score 90)))).
    unfold elbowStatusOf. decide_cmp. reflexivity.
Defined.

(** ** The mean *)

Lemma sum_bounds (lo hi : R) (l : list R) :
  Forall (fun v => lo <= v <= hi) l ->
  lo * INR (length l) <= sum l <= hi * INR (length l).
Proof.
  induction 1 as [| v l Hv Hl IH].
  - cbn. lra.
  - change (sum (v :: l)) with (v + sum l).
    change (length (v :: l)) with (S (length l)). rewrite S_INR. lra.
Qed.

Lemma average_bounds (lo hi : R) (l : list R) :
  l <> [] -> Forall (fun v => lo <= v <= hi) l -> lo <= average l <= hi.
Proof.
  intros Hne Hall. rewrite average_sum by assumption.
  pose proof (sum_bounds lo hi l Hall) as [Hlo Hhi].
  assert (Hn : 0 < INR (length l)).
  { apply lt_0_INR. destruct l; [contradiction | cbn; lia]. }
  split.
  - apply (Rmult_le_reg_r (INR (length l))); [assumption |].
    unfold Rdiv. rewrite Rmult_assoc, Rinv_l by lra. lra.
  - apply (Rmult_le_reg_r (INR (length l))); [assumption |].
    unfold Rdiv. rewrite Rmult_assoc, Rinv_l by lra. lra.
Qed.

(** ** Invariants of the analysis state *)

Lemma releaseAngle_range (dy dx : R) :
  0 <= Rmax 0 (JsMath.atan2 dy (Rabs dx) * 180 / PI) <= 90.
Proof.
  split; [apply Rmax_l |]. apply Rmax_lub; [lra |].
  rewrite <- degrees_right_angle. apply degrees_le.
  apply atan2_right_half. apply Rabs_pos.
Qed.

Lemma frameMetrics_inRange (landmarks : list Slot) (fm : FrameMetrics) :
  frameMetrics landmarks = Ok fm -> forall m, inRange m (raw m fm).
Proof.
  intros Hfm.
  destruct (frameMetrics_ok_inv _ _ Hfm)
    as (ls & rs & re & rw & rh & rk & ra & H11 & H12 & H14 & H16 & H24 & H26 & H28).
  unfold frameMetrics in Hfm.
  rewrite H11, H12, H14, H16, H24, H26, H28 in Hfm.
  rewrite !calculateAngle_some, calculateReleaseAngle_some, calculateAlignment_some in Hfm.
  cbn [obind] in Hfm. injection Hfm as <-.
  intros []; cbn [raw inRange elbowAngle releaseAngle kneeAngle alignmentScore].
  - apply angleAt_range.
  - apply releaseAngle_range.
  - apply angleAt_range.
  - apply alignment_range.
Qed.

Lemma Forall_tl {A : Type} (P : A -> Prop) (l : list A) :
  Forall P l -> Forall P (tl l).
Proof. intros H. destruct H; [constructor | assumption]. Qed.

Lemma recordFrame_Forall (P : Metric -> R -> Prop) (fm : FrameMetrics) (d : AnalysisData) :
  (forall m, Forall (P m) (queue m d)) ->
  (forall m, P m (raw m fm)) ->
  forall m, Forall (P m) (queue m (recordFrame fm d)).
Proof.
  intros Hall Hfm m.
  assert (Hpush : Forall (P m) (queue m d ++ [raw m fm])).
  { apply Forall_app. split; [apply Hall |]. constructor; [apply Hfm | constructor]. }
  unfold recordFrame, slideAll.
  destruct (Nat.ltb 30 _); destruct m;
    cbn [pushAll shiftAll queue elbowAngles releaseHeights kneeAngles alignmentScores];
    try apply Forall_tl; exact Hpush.
Qed.

Lemma reachable_inRange (st : State) :
  reachable st -> forall m, Forall (inRange m) (queue m (analysisData st)).
Proof.
  induction 1 as [d | st results Hreach IH | st Hreach _].
  - intros []; constructor.
  - destruct (onPoseResults_data results st)
      as [[-> _] | (fm & (landmarks & _ & _ & Hfm) & -> & _)].
    + assumption.
    + apply recordFrame_Forall; [assumption |].
      apply (frameMetrics_inRange _ _ Hfm).
  - destruct (resetStats_run st) as (d' & -> & _). intros []; constructor.
Qed.

Lemma inRange_interval (m : Metric) :
  exists hi, 0 <= hi /\ forall v, inRange m v <-> 0 <= v <= hi.
Proof.
  destruct m; [exists 180 | exists 90 | exists 180 | exists 100];
    (split; [lra | intros v; reflexivity]).
Qed.

Lemma average_inRange (m : Metric) (q : list R) :
  Forall (inRange m) q -> inRange m (average q).
Proof.
  intros Hall. destruct (inRange_interval m) as (hi & Hhi & Hiff).
  apply Hiff. destruct q as [| v q].
  - unfold average. cbn. lra.
  - apply average_bounds; [discriminate |].
    apply Forall_impl with (2 := Hall). intros u Hu. apply Hiff. exact Hu.
Qed.

(** X10: In every reachable state each stored value is within the bounds of its
    metric (elbow and knee angles between 0 and 180, release angles between 0
    and 90, alignment between 0 and 100), and so is each smoothed value. *)
Theorem history_values_in_range (st : State) :
  reachable st ->
  forall m,
    Forall (inRange m) (queue m (analysisData st)) /\ inRange m (smoothed m st).
Proof.
  intros Hreach m. pose proof (reachable_inRange st Hreach m) as Hall.
  split; [exact Hall |]. apply average_inRange. exact Hall.
Qed.

Lemma history_values_in_range_witness :
  inRange Alignment
    (smoothed Alignment
       (snd (onPoseResults (mkResults (Some (samplePose (55 / 100))))
               (initialState blankPage)))).
Proof.
  refine (proj2 (history_values_in_range _ _ Alignment)).
  apply reach_frame. apply reach_init.
Defined.

Lemma reachable_length_frameCount (st : State) :
  reachable st ->
  length (elbowAngles (analysisData st)) = Nat.min (frameCount st) 30.
Proof.
  induction 1 as [d | st results Hreach IH | st Hreach _].
  - reflexivity.
  - destruct (reachable_inv st Hreach) as [Hsame _].
    destruct (onPoseResults_data results st) as [[-> ->] | (fm & _ & -> & ->)].
    + assumption.
    + change (elbowAngles (recordFrame fm (analysisData st)))
        with (queue Elbow (recordFrame fm (analysisData st))).
      rewrite recordFrame_queue by assumption. rewrite slide30_length_step.
      cbn [queue]. rewrite IH.
      destruct (Nat.ltb 30 (S (Nat.min (frameCount st) 30))) eqn:E.
      * apply Nat.ltb_lt in E. lia.
      * apply Nat.ltb_ge in E. lia.
  - destruct (resetStats_run st) as (d' & -> & _). reflexivity.
Qed.

(** X11: In every reachable state each history queue holds as many values as
    frames have been counted since the last reset, up to 30: its length is
    the smaller of [frameCount] and 30. *)
Theorem queue_length_is_min_frameCount_30 (st : State) :
  reachable st ->
  forall m, length (queue m (analysisData st)) = Nat.min (frameCount st) 30.
Proof.
  intros Hreach m. destruct (reachable_inv st Hreach) as [Hsame _].
  rewrite (Hsame m). apply reachable_length_frameCount. assumption.
Qed.

Lemma queue_length_is_min_frameCount_30_witness :
  length (queue Knee (analysisData
            (runFrames (repeat (mkResults (Some (samplePose (1 / 2)))) 2)
                       (initialState blankPage)))) =
  Nat.min (frameCount (runFrames (repeat (mkResults (Some (samplePose (1 / 2)))) 2)
                                 (initialState blankPage))) 30.
Proof.
  refine (queue_length_is_min_frameCount_30 _ _ Knee).
  cbn [repeat runFrames]. apply reach_frame. apply reach_frame. apply reach_init.
Defined.

(** ** Frame streams *)

Lemma metricsOf_valid (results : Results) (fm : FrameMetrics) :
  metricsOf results = Some fm <-> validFrame results fm.
Proof.
  unfold metricsOf, validFrame. split.
  - intros H. destruct (poseLandmarks results) as [landmarks |]; [| discriminate].
    exists landmarks.
    destruct (drawPose landmarks) as [[] |]; [| discriminate].
    destruct (frameMetrics landmarks) as [fm' |]; [| discriminate].
    injection H as ->. repeat split.
  - intros (landmarks & -> & -> & ->). reflexivity.
Qed.

Lemma onPoseResults_skipped (results : Results) (st : State) :
  metricsOf results = None ->
  analysisData (snd (onPoseResults results st)) = analysisData st /\
  frameCount (snd (onPoseResults results st)) = frameCount st.
Proof.
  intros Hnone.
  destruct (onPoseResults_data results st) as [H | (fm & Hv & _)]; [exact H |].
  apply metricsOf_valid in Hv. congruence.
Qed.

(** Whatever the frames of a stream, the queues afterwards hold the last 30
    of their old values followed by the raw values of the frames that went
    through. *)
Lemma runFrames_stream (frames : list Results) (st : State) :
  reachable st ->
  frameCount (runFrames frames st) =
    (frameCount st + length (validMetrics frames))%nat /\
  forall m, queue m (analysisData (runFrames frames st)) =
            lastn 30 (queue m (analysisData st) ++ map (raw m) (validMetrics frames)).
Proof.
  revert st. induction frames as [| results frames IH]; intros st Hreach.
  - destruct (reachable_inv st Hreach) as [Hsame Hlen].
    cbn [runFrames validMetrics map length]. split; [lia |].
    intros m. rewrite app_nil_r, lastn_short; [reflexivity |].
    rewrite (Hsame m). assumption.
  - cbn [runFrames validMetrics].
    destruct (IH (snd (onPoseResults results st)) (reach_frame st results Hreach))
      as [IHc IHq].
    destruct (reachable_inv st Hreach) as [Hsame Hlen].
    destruct (metricsOf results) as [fm |] eqn:Hm.
    + apply metricsOf_valid in Hm.
      destruct (onPoseResults_valid results fm st Hm) as (d' & Hrun & _).
      rewrite Hrun in *. cbn [snd frameCount analysisData length map] in *.
      split; [lia |]. intros m. rewrite IHq.
      rewrite recordFrame_queue by assumption.
      rewrite slide30_lastn by (rewrite (Hsame m); assumption).
      rewrite lastn_app, <- app_assoc. reflexivity.
    + destruct (onPoseResults_skipped results st Hm) as [Hd Hc].
      rewrite IHc, Hc. split; [reflexivity |].
      intros m. rewrite IHq, Hd. reflexivity.
Qed.

(** X12: For any stream of frames, with or without a pose and complete or not,
    processed from a reachable state: the frame counter grows by the number
    of frames that went through, and each queue holds the last 30 values of
    its old contents followed by the raw values of those frames, in order;
    frames without a pose and frames that throw leave no trace. *)
Theorem stream_window (frames : list Results) (st : State) :
  reachable st ->
  frameCount (runFrames frames st) =
    (frameCount st + length (validMetrics frames))%nat /\
  (forall m, queue m (analysisData (runFrames frames st)) =
             lastn 30 (queue m (analysisData st) ++ map (raw m) (validMetrics frames))) /\
  (validMetrics frames = [] -> analysisData (runFrames frames st) = analysisData st).
Proof.
  intros Hreach. destruct (runFrames_stream frames st Hreach) as [Hc Hq].
  split; [exact Hc |]. split; [exact Hq |].
  intros Hnone. clear Hc Hq. revert st Hreach.
  induction frames as [| results frames IH]; intros st Hreach; [reflexivity |].
  cbn [runFrames validMetrics] in *.
  destruct (metricsOf results) eqn:Hm; [discriminate |].
  rewrite (IH Hnone _ (reach_frame st results Hreach)).
  apply (onPoseResults_skipped results st Hm).
Qed.

Lemma stream_window_witness :
  let frames := [mkResults (Some (samplePose (1 / 2))); mkResults None;
                 mkResults (Some truncatedPose);
                 mkResults (Some (samplePose (55 / 100)))] in
  frameCount (runFrames frames (initialState blankPage)) =
  (frameCount (initialState blankPage) + length (validMetrics frames))%nat.
Proof.
  exact (proj1 (stream_window
                  [mkResults (Some (samplePose (1 / 2))); mkResults None;
                   mkResults (Some truncatedPose);
                   mkResults (Some (samplePose (55 / 100)))]
                  (initialState blankPage) (reach_init blankPage))).
Defined.

(** ** Which frames go through *)

Lemma frameMetrics_present (landmarks : list Slot) :
  (forall i, In i requiredJoints -> index landmarks i <> None) ->
  exists fm, frameMetrics landmarks = Ok fm.
Proof.
  intros H. unfold frameMetrics.
  destruct (index landmarks 11) as [ls |] eqn:H11;
    [| exfalso; apply (H 11%nat); [cbn; tauto | assumption]].
  destruct (index landmarks 12) as [rs |] eqn:H12;
    [| exfalso; apply (H 12%nat); [cbn; tauto | assumption]].
  destruct (index landmarks 14) as [re |] eqn:H14;
    [| exfalso; apply (H 14%nat); [cbn; tauto | assumption]].
  destruct (index landmarks 16) as [rw |] eqn:H16;
    [| exfalso; apply (H 16%nat); [cbn; tauto | assumption]].
  destruct (index landmarks 24) as [rh |] eqn:H24;
    [| exfalso; apply (H 24%nat); [cbn; tauto | assumption]].
  destruct (index landmarks 26) as [rk |] eqn:H26;
    [| exfalso; apply (H 26%nat); [cbn; tauto | assumption]].
  destruct (index landmarks 28) as [ra |] eqn:H28;
    [| exfalso; apply (H 28%nat); [cbn; tauto | assumption]].
  eexists. reflexivity.
Qed.



(** ** The drawing of the skeleton *)

Lemma drawConnections_ok (cw ch : R) (landmarks : list Slot)
      (cs : list (nat * nat)) :
  exists segments,
    drawConnections cw ch landmarks cs = Ok segments /\
    length segments =
      length (filter (fun c => truthy (index landmarks (fst c)) &&
                               truthy (index landmarks (snd c))) cs) /\
    Forall (fun s => exists a b p q,
                In (a, b) cs /\
                index landmarks a = Some p /\ index landmarks b = Some q /\
                s = mkSegment (x p * cw) (y p * ch) (x q * cw) (y q * ch))
           segments.
Proof.
  induction cs as [| [a b] cs (segments & IHrun & IHlen & IHall)].
  - exists []. repeat split. constructor.
  - cbn [drawConnections filter fst snd].
    assert (Hrest : Forall (fun s => exists a0 b0 p q,
                In (a0, b0) ((a, b) :: cs) /\
                index landmarks a0 = Some p /\ index landmarks b0 = Some q /\
                s = mkSegment (x p * cw) (y p * ch) (x q * cw) (y q * ch)) segments).
    { apply Forall_impl with (2 := IHall).
      intros s (a0 & b0 & p & q & Hin & Hrest). exists a0, b0, p, q.
      split; [right; exact Hin | exact Hrest]. }
    destruct (index landmarks a) as [p |] eqn:Ea;
      destruct (index landmarks b) as [q |] eqn:Eb;
      cbn [truthy andb obind prop_x prop_y]; rewrite ?IHrun; cbn [obind].
    + eexists. split; [reflexivity |]. split; [cbn [length]; rewrite IHlen; reflexivity |].
      constructor; [| exact Hrest].
      exists a, b, p, q. repeat split; try assumption. left. reflexivity.
    + exists segments. repeat split; assumption.
    + exists segments. repeat split; assumption.
    + exists segments. repeat split; assumption.
Qed.

Lemma filter_length_le {A : Type} (f : A -> bool) (l : list A) :
  (length (filter f l) <= length l)%nat.
Proof.
  induction l as [| a l IH]; [apply le_n |].
  cbn [filter]. destruct (f a); cbn [length]; lia.
Qed.

(** ** The page after a frame *)

Lemma analyze_ok_page (landmarks : list Slot) (fm : FrameMetrics)
      (st : State) :
  frameMetrics landmarks = Ok fm ->
  let d' := dom (snd (analyzeShootingForm landmarks st)) in
  let avg m := average (queue m (recordFrame fm (analysisData st))) in
  let overall :=
    overallScoreOf (scoreElbowAngle (avg Elbow)) (scoreReleaseHeight (avg Release))
                   (scoreKneeAngle (avg Knee)) (avg Alignment) in
  let classOf s :=
    if JsMath.geb s 80 then good else if JsMath.geb s 60 then warning else poor in
  score_ring d' =
    Some (mkRing (2 * PI * 52 - overall / 100 * (2 * PI * 52))
                 (if JsMath.geb overall 80 then Green
                  else if JsMath.geb overall 60 then Amber else Red)) /\
  bar d' elbow_bar =
    Some (mkBar (scoreElbowAngle (avg Elbow)) (classOf (scoreElbowAngle (avg Elbow)))) /\
  bar d' release_bar =
    Some (mkBar (scoreReleaseHeight (avg Release))
                (classOf (scoreReleaseHeight (avg Release)))) /\
  bar d' knee_bar =
    Some (mkBar (scoreKneeAngle (avg Knee)) (classOf (scoreKneeAngle (avg Knee)))) /\
  bar d' alignment_bar = Some (mkBar (avg Alignment) (classOf (avg Alignment))) /\
  metric d' elbow_angle = Shown (JsMath.round (avg Elbow)) /\
  metric d' release_height = Shown (JsMath.round (avg Release)) /\
  metric d' knee_angle = Shown (JsMath.round (avg Knee)) /\
  metric d' alignment_score = Shown (JsMath.round (avg Alignment)) /\
  metric d' overall_score = Shown overall /\
  form_feedback d' = Some (feedbackOf overall).
Proof.
  intros Hfm.
  destruct (frameMetrics_ok_inv _ _ Hfm)
    as (ls & rs & re & rw & rh & rk & ra & H11 & H12 & H14 & H16 & H24 & H26 & H28).
  unfold frameMetrics in Hfm. unfold analyzeShootingForm.
  rewrite H11, H12, H14, H16, H24, H26, H28 in *.
  rewrite !calculateAngle_some, calculateReleaseAngle_some, calculateAlignment_some in *.
  cbn [obind] in Hfm. injection Hfm as <-.
  unfold recordFrame, slideAll.
  cbn [elbowAngle releaseAngle kneeAngle alignmentScore pushAll elbowAngles].
  run_m. cbn [pushAll elbowAngles].
  destruct (Nat.ltb 30 (length (elbowAngles (analysisData st) ++ _))); run_m;
    cbn [queue pushAll shiftAll elbowAngles releaseHeights kneeAngles alignmentScores
         form_feedback metric score_ring bar elbow_status release_status
         knee_status alignment_status MetricId_eqb BarId_eqb];
    repeat split; reflexivity.
Qed.

Lemma onPoseResults_valid_dom (results : Results) (fm : FrameMetrics) (st : State) :
  validFrame results fm ->
  exists landmarks,
    frameMetrics landmarks = Ok fm /\
    dom (snd (onPoseResults results st)) = dom (snd (analyzeShootingForm landmarks st)) /\
    analysisData (snd (onPoseResults results st)) = recordFrame fm (analysisData st).
Proof.
  intros (landmarks & Hpose & Hdraw & Hfm). exists landmarks.
  split; [exact Hfm |].
  rewrite (onPoseResults_some _ _ st Hpose), Hdraw.
  destruct (analyze_ok landmarks fm st Hfm) as (d' & -> & _).
  split; reflexivity.
Qed.

Lemma ring_offset_range (s : R) :
  0 <= s <= 100 -> 0 <= 2 * PI * 52 - s / 100 * (2 * PI * 52) <= 2 * PI * 52.
Proof.
  intros Hs. pose proof PI_RGT_0 as Hpi.
  assert (Hc : 0 < 2 * PI * 52) by lra.
  replace (2 * PI * 52 - s / 100 * (2 * PI * 52))
    with ((1 - s / 100) * (2 * PI * 52)) by field.
  split.
  - apply Rmult_le_pos; lra.
  - rewrite <- (Rmult_1_l (2 * PI * 52)) at 2.
    apply Rmult_le_compat_r; lra.
Qed.

Lemma round_integer_in (hi : Z) (s : R) :
  0 <= s <= IZR hi ->
  exists n : Z, Shown (JsMath.round s) = Shown (IZR n) /\ (0 <= n <= hi)%Z.
Proof.
  intros Hs. exists (Zfloor (s + / 2)). split; [reflexivity |].
  pose proof (round_bounds 0 hi s Hs) as [Hlo Hhi]. unfold JsMath.round in *.
  split; apply le_IZR; assumption.
Qed.

(** X18: The page after a valid frame in a reachable state: the score ring has
    an offset between 0 and its circumference 2*PI*52, and it is green when
    the text says excellent and not red unless the text says fair or needs
    improvement; each of the four bars has a width between 0 and 100 with
    class good from 80, poor below 60 and warning in between; each of the
    five metric displays shows a whole number, between 0 and 180. *)
Theorem page_after_valid_frame (st : State) (results : Results) (fm : FrameMetrics) :
  reachable st -> validFrame results fm ->
  let d' := dom (snd (onPoseResults results st)) in
  (exists ring,
     score_ring d' = Some ring /\
     0 <= strokeDashoffset ring <= 2 * PI * 52 /\
     (form_feedback d' = Some FbExcellent -> stroke ring = Green) /\
     (stroke ring = Red ->
      form_feedback d' = Some FbFair \/ form_feedback d' = Some FbNeedsImprovement)) /\
  (forall b, exists br,
     bar d' b = Some br /\ 0 <= width br <= 100 /\
     (barClass br = good <-> 80 <= width br) /\
     (barClass br = poor <-> width br < 60)) /\
  (forall i, exists n : Z, metric d' i = Shown (IZR n) /\ (0 <= n <= 180)%Z).
Proof.
  intros Hreach Hv. cbn zeta.
  pose proof (reach_frame st results Hreach) as Hreach'.
  destruct (onPoseResults_valid_dom results fm st Hv) as (landmarks & Hfm & -> & Hdata).
  assert (Havg : forall m, inRange m (average (queue m (recordFrame fm (analysisData st))))).
  { intros m. apply average_inRange. rewrite <- Hdata.
    apply reachable_inRange. exact Hreach'. }
  pose proof (Havg Elbow) as HE. pose proof (Havg Release) as HR.
  pose proof (Havg Knee) as HK. pose proof (Havg Alignment) as HA.
  cbn [inRange] in HE, HR, HK, HA. clear Havg.
  pose proof (analyze_ok_page landmarks fm st Hfm) as Hpage.
  cbv beta zeta in Hpage.
  remember (average (queue Elbow (recordFrame fm (analysisData st)))) as aE.
  remember (average (queue Release (recordFrame fm (analysisData st)))) as aR.
  remember (average (queue Knee (recordFrame fm (analysisData st)))) as aK.
  remember (average (queue Alignment (recordFrame fm (analysisData st)))) as aA.
  remember (overallScoreOf (scoreElbowAngle aE) (scoreReleaseHeight aR)
                           (scoreKneeAngle aK) aA) as overall.
  destruct Hpage
    as (Hring & Hb1 & Hb2 & Hb3 & Hb4 & Hm1 & Hm2 & Hm3 & Hm4 & Hm5 & Hfb).
  pose proof (scoreElbowAngle_range aE) as HsE.
  pose proof (scoreReleaseHeight_range aR) as HsR.
  pose proof (scoreKneeAngle_range aK) as HsK.
  assert (Ho : 0 <= overall <= 100).
  { subst overall. apply overallScoreOf_range; assumption. }
  assert (Hclass : forall s, 0 <= s <= 100 ->
    let c := if JsMath.geb s 80 then good
             else if JsMath.geb s 60 then warning else poor in
    (c = good <-> 80 <= s) /\ (c = poor <-> s < 60)).
  { intros s Hs. cbn zeta.
    destruct (Rle_lt_dec 80 s); [| destruct (Rle_lt_dec 60 s)]; decide_cmp;
      split; split; intros H; try discriminate; try reflexivity; lra. }
  split; [| split].
  - eexists. split; [exact Hring |]. cbn [strokeDashoffset stroke].
    split; [apply ring_offset_range; exact Ho |].
    rewrite Hfb. unfold feedbackOf.
    destruct (Rle_lt_dec 85 overall); [| destruct (Rle_lt_dec 80 overall);
      [| destruct (Rle_lt_dec 70 overall);
         [| destruct (Rle_lt_dec 60 overall); [| destruct (Rle_lt_dec 50 overall)]]]];
      decide_cmp; split; intros H; try discriminate; try reflexivity; auto.
  - intros [].
    + eexists. split; [exact Hb1 |]. cbn [width barClass].
      split; [exact HsE |]. apply Hclass. exact HsE.
    + eexists. split; [exact Hb2 |]. cbn [width barClass].
      split; [exact HsR |]. apply Hclass. exact HsR.
    + eexists. split; [exact Hb3 |]. cbn [width barClass].
      split; [exact HsK |]. apply Hclass. exact HsK.
    + eexists. split; [exact Hb4 |]. cbn [width barClass].
      split; [exact HA |]. apply Hclass. exact HA.
  - intros [].
    + rewrite Hm5. subst overall.
      destruct (overallScoreOf_close (scoreElbowAngle aE) (scoreReleaseHeight aR)
                  (scoreKneeAngle aK) aA HsE HsR HsK HA) as (n & -> & Hn & _).
      exists n. split; [reflexivity | lia].
    + rewrite Hm1. apply (round_integer_in 180). exact HE.
    + rewrite Hm2. apply (round_integer_in 180). lra.
    + rewrite Hm3. apply (round_integer_in 180). exact HK.
    + rewrite Hm4. apply (round_integer_in 180). lra.
Qed.

Lemma page_after_valid_frame_witness :
  exists n : Z,
    metric (dom (snd (onPoseResults (mkResults (Some (samplePose (55 / 100))))
                        (initialState blankPage)))) alignment_score = Shown (IZR n) /\
    (0 <= n <= 180)%Z.
Proof.
  exact (proj2 (proj2 (page_after_valid_frame (initialState blankPage)
                         (mkResults (Some (samplePose (55 / 100))))
                         (sampleMetrics (55 / 100)) (reach_init blankPage)
                         (samplePose_valid (55 / 100)))) alignment_score).
Defined.

(** ** Reset *)

(** X19: [resetStats] never throws.  It leaves the five metric displays on the
    dashes, the four bars at width 0 with class poor, the ring red at its
    full circumference and the reset message; every smoothed value is then
    0.  The four status texts are not touched: they stay as the last frame
    left them. *)
Theorem resetStats_page (st : State) :
  let st0 := snd (resetStats st) in
  fst (resetStats st) = Ok tt /\
  (forall i, metric (dom st0) i = Dashes) /\
  (forall b, bar (dom st0) b = Some (mkBar 0 poor)) /\
  score_ring (dom st0) = Some (mkRing (2 * PI * 52) Red) /\
  form_feedback (dom st0) = Some FbStatsReset /\
  (forall m, smoothed m st0 = 0) /\
  elbow_status (dom st0) = elbow_status (dom st) /\
  release_status (dom st0) = release_status (dom st) /\
  knee_status (dom st0) = knee_status (dom st) /\
  alignment_status (dom st0) = alignment_status (dom st).
Proof.
  cbn zeta. unfold resetStats, smoothed. run_m.
  rewrite !(geb_false 0 80), !(geb_false 0 60) by lra.
  split; [reflexivity |]. split; [intros []; reflexivity |].
  split; [intros []; reflexivity |]. split.
  - do 2 f_equal. field.
  - split; [reflexivity |]. split; [intros []; reflexivity |].
    repeat split; reflexivity.
Qed.

(** ** The camera controls *)

Lemma onFrame_controls (results : Results) (a : App) :
  controls (snd (onFrame results a)) = controls a.
Proof.
  unfold onFrame. destruct (isRunning (controls a)); [| reflexivity].
  destruct (onPoseResults results (core a)). reflexivity.
Qed.

(** X20: After a click on start or on stop the controls agree with the flag:
    the start button is disabled exactly while [isRunning], the stop button
    exactly while not, and while [isRunning] the camera is started.  Every
    event keeps this, and a click on start leaves [isRunning] set exactly
    when the camera could be started. *)
Theorem controls_consistent :
  let ok := fun c =>
    startBtn_disabled c = isRunning c /\
    stopBtn_disabled c = negb (isRunning c) /\
    (isRunning c = true -> camera c = Some true) in
  (forall o a, ok (controls (handle (ClickStart o) a))) /\
  (forall a, ok (controls (handle ClickStop a))) /\
  (forall e a, ok (controls a) -> ok (controls (handle e a))) /\
  (forall o a, isRunning (controls (handle (ClickStart o) a)) = true <->
               o = CameraStarts).
Proof.
  cbn zeta.
  assert (Hstart : forall o a,
    startBtn_disabled (controls (handle (ClickStart o) a)) =
      isRunning (controls (handle (ClickStart o) a)) /\
    stopBtn_disabled (controls (handle (ClickStart o) a)) =
      negb (isRunning (controls (handle (ClickStart o) a))) /\
    (isRunning (controls (handle (ClickStart o) a)) = true ->
     camera (controls (handle (ClickStart o) a)) = Some true)).
  { intros [] a; cbn; repeat split; try reflexivity; discriminate. }
  assert (Hstop : forall a,
    startBtn_disabled (controls (handle ClickStop a)) =
      isRunning (controls (handle ClickStop a)) /\
    stopBtn_disabled (controls (handle ClickStop a)) =
      negb (isRunning (controls (handle ClickStop a))) /\
    (isRunning (controls (handle ClickStop a)) = true ->
     camera (controls (handle ClickStop a)) = Some true)).
  { intros a; cbn; repeat split; try reflexivity; discriminate. }
  split; [exact Hstart |]. split; [exact Hstop |]. split.
  - intros [o | | | results] a Hok.
    + apply Hstart.
    + apply Hstop.
    + exact Hok.
    + cbn [handle]. rewrite onFrame_controls. exact Hok.
  - intros [] a; cbn; split; intros H; try reflexivity; discriminate.
Qed.

Lemma controls_consistent_witness :
  isRunning (controls (handle (ClickStart CameraStarts)
                         (mkApp (mkControls false None false true None)
                                (initialState blankPage)))) = true.
Proof.
  apply (proj2 (proj2 (proj2 (proj2 controls_consistent)) CameraStarts _)).
  reflexivity.
Defined.

Lemma handleAll_app (es1 es2 : list Event) (a : App) :
  handleAll (es1 ++ es2) a = handleAll es2 (handleAll es1 a).
Proof. unfold handleAll. apply fold_left_app. Qed.

Lemma frames_while_stopped (frames : list Results) (a : App) :
  isRunning (controls a) = false -> handleAll (map Frame frames) a = a.
Proof.
  intros Hoff. induction frames as [| results frames IH]; [reflexivity |].
  cbn [map]. change (handleAll (Frame results :: map Frame frames) a)
    with (handleAll (map Frame frames) (handle (Frame results) a)).
  cbn [handle]. unfold onFrame. rewrite Hoff. cbn [snd]. exact IH.
Qed.

(** X21: The gate on the camera frames.  While [isRunning] is not set a frame
    is dropped: nothing of the page changes, whatever the frame.  While it is
    set a frame goes to [onPoseResults].  The buttons start and stop do not
    touch the history, so a window filled before a stop is still there after
    the next start, whatever frames arrived in between. *)
Theorem camera_gate (a : App) (frames : list Results) :
  (isRunning (controls a) = false ->
   handleAll (map Frame frames) a = a /\
   Forall (fun results => onFrame results a = (Ok tt, a)) frames) /\
  (isRunning (controls a) = true ->
   forall results,
     core (handle (Frame results) a) = snd (onPoseResults results (core a))) /\
  (forall o,
     core (handleAll (ClickStop :: map Frame frames ++ [ClickStart o]) a) = core a).
Proof.
  split; [| split].
  - intros Hoff. split; [apply frames_while_stopped; exact Hoff |].
    apply Forall_forall. intros results _. unfold onFrame. rewrite Hoff. reflexivity.
  - intros Hon results. cbn [handle]. unfold onFrame. rewrite Hon.
    destruct (onPoseResults results (core a)). reflexivity.
  - intros o.
    change (handleAll (ClickStop :: map Frame frames ++ [ClickStart o]) a)
      with (handleAll (map Frame frames ++ [ClickStart o]) (handle ClickStop a)).
    rewrite handleAll_app. rewrite frames_while_stopped by reflexivity.
    reflexivity.
Qed.

Lemma camera_gate_witness :
  handleAll (map Frame [mkResults (Some (samplePose (1 / 2)))])
            (mkApp (mkControls false None false true None) (initialState blankPage)) =
  mkApp (mkControls false None false true None) (initialState blankPage).
Proof.
  exact (proj1 (proj1 (camera_gate
                         (mkApp (mkControls false None false true None)
                                (initialState blankPage))
                         [mkResults (Some (samplePose (1 / 2)))]) eq_refl)).
Defined.

(** ** The alignment measure *)

(** X3: The alignment measure does not depend on the order of the two
    shoulders and lies between 0 and 100; level shoulders give 100, shoulders
    a tenth of the image height or more apart give 0, and shoulders further
    apart never give more. *)
Theorem calculateAlignment_facts (l r l' r' : Landmark) :
  exists a a',
    calculateAlignment (Some l) (Some r) = Ok a /\
    calculateAlignment (Some r) (Some l) = Ok a /\
    calculateAlignment (Some l') (Some r') = Ok a' /\
    0 <= a <= 100 /\
    (y l = y r -> a = 100) /\
    (1 / 10 <= Rabs (y l - y r) -> a = 0) /\
    (Rabs (y l - y r) <= Rabs (y l' - y r') -> a' <= a).
Proof.
  exists (Rmax 0 (100 - Rabs (y l - y r) * 1000)),
         (Rmax 0 (100 - Rabs (y l' - y r') * 1000)).
  rewrite !calculateAlignment_some.
  pose proof (Rabs_pos (y l - y r)) as Hpos.
  split; [reflexivity |]. split.
  { rewrite (Rabs_minus_sym (y r) (y l)). reflexivity. }
  split; [reflexivity |]. split; [apply alignment_range |].
  split; [| split].
  - intros ->. replace (y r - y r) with 0 by ring. rewrite Rabs_R0.
    replace (100 - 0 * 1000) with 100 by ring. apply Rmax_right. lra.
  - intros H. apply Rmax_left. lra.
  - intros H. apply Rmax_0_mono. lra.
Qed.

Lemma calculateAlignment_facts_witness :
  exists a a',
    calculateAlignment (Some (mkLandmark (4 / 10) (3 / 10)))
                       (Some (mkLandmark (6 / 10) (3 / 10))) = Ok a /\
    calculateAlignment (Some (mkLandmark (4 / 10) (3 / 10)))
                       (Some (mkLandmark (6 / 10) (5 / 10))) = Ok a' /\
    a = 100 /\ a' <= a.
Proof.
  destruct (calculateAlignment_facts
              (mkLandmark (4 / 10) (3 / 10)) (mkLandmark (6 / 10) (3 / 10))
              (mkLandmark (4 / 10) (3 / 10)) (mkLandmark (6 / 10) (5 / 10)))
    as (a & a' & Ha & _ & Ha' & _ & Hlevel & _ & Hmono).
  exists a, a'. split; [exact Ha |]. split; [exact Ha' |]. split.
  - apply Hlevel. reflexivity.
  - apply Hmono. cbn [y].
    replace (3 / 10 - 3 / 10) with 0 by ring. rewrite Rabs_R0. apply Rabs_pos.
Defined.

(** ** Which arrays are drawn and measured *)

Lemma drawPoints_ok_iff (landmarks : list Slot) (i : nat) :
  drawPoints i landmarks = Ok tt <->
  forall j, (10 < i + j < 29)%nat -> nth_error landmarks j <> Some (Elem None).
Proof.
  revert i. induction landmarks as [| s rest IH]; intros i.
  - split; [| reflexivity]. intros _ [| j] _; discriminate.
  - cbn [drawPoints]. destruct s as [| l].
    + rewrite IH. split.
      * intros H [| j] Hj; [discriminate |]. cbn [nth_error]. apply H. lia.
      * intros H j Hj. apply (H (S j)). lia.
    + destruct (Nat.ltb 10 i && Nat.ltb i 29) eqn:E.
      * apply andb_prop in E. destruct E as [E1 E2].
        apply Nat.ltb_lt in E1. apply Nat.ltb_lt in E2.
        destruct l as [p |]; cbn [obind prop_x prop_y].
        -- rewrite IH. split.
           ++ intros H [| j] Hj; [discriminate |]. cbn [nth_error]. apply H. lia.
           ++ intros H j Hj. apply (H (S j)). lia.
        -- split; [discriminate |]. intros H. exfalso.
           apply (H 0%nat); [lia | reflexivity].
      * assert (Hout : ~ (10 < i < 29)%nat).
        { intros [H1 H2]. apply Nat.ltb_lt in H1. apply Nat.ltb_lt in H2.
          rewrite H1, H2 in E. discriminate. }
        rewrite IH. split.
        -- intros H [| j] Hj; [exfalso; apply Hout; lia |].
           cbn [nth_error]. apply H. lia.
        -- intros H j Hj. apply (H (S j)). lia.
Qed.

Lemma drawPoints_throw_inv (landmarks : list Slot) (i : nat) (e : JsError) :
  drawPoints i landmarks = Throw e ->
  exists j, (10 < i + j < 29)%nat /\ nth_error landmarks j = Some (Elem None).
Proof.
  revert i. induction landmarks as [| s rest IH]; intros i; [discriminate |].
  cbn [drawPoints]. destruct s as [| l].
  - intros H. destruct (IH _ H) as (j & Hj & Hn).
    exists (S j). split; [lia | exact Hn].
  - destruct (Nat.ltb 10 i && Nat.ltb i 29) eqn:E.
    + apply andb_prop in E. destruct E as [E1 E2].
      apply Nat.ltb_lt in E1. apply Nat.ltb_lt in E2.
      destruct l as [p |]; cbn [obind prop_x prop_y].
      * intros H. destruct (IH _ H) as (j & Hj & Hn).
        exists (S j). split; [lia | exact Hn].
      * intros _. exists 0%nat. split; [lia | reflexivity].
    + intros H. destruct (IH _ H) as (j & Hj & Hn).
      exists (S j). split; [lia | exact Hn].
Qed.

(** X14: [drawPose] throws exactly when the array has, at an index from 11
    to 28, an element that is [undefined] or [null]; holes are passed over,
    and an array that stops short is drawn as far as it goes. *)
Theorem drawPose_throws_iff (landmarks : list Slot) :
  (drawPose landmarks = Throw TypeError <->
   exists j, (11 <= j <= 28)%nat /\ nth_error landmarks j = Some (Elem None)) /\
  (drawPose landmarks = Ok tt <->
   forall j, (11 <= j <= 28)%nat -> nth_error landmarks j <> Some (Elem None)) /\
  ((length landmarks <= 11)%nat -> drawPose landmarks = Ok tt).
Proof.
  unfold drawPose.
  assert (Hok : drawPoints 0 landmarks = Ok tt <->
                forall j, (11 <= j <= 28)%nat ->
                          nth_error landmarks j <> Some (Elem None)).
  { rewrite drawPoints_ok_iff. split; intros H j Hj; apply H; cbn; lia. }
  split; [| split].
  - split.
    + intros H. destruct (drawPoints_throw_inv _ _ _ H) as (j & Hj & Hn).
      exists j. split; [cbn in Hj; lia | exact Hn].
    + intros (j & Hj & Hn).
      destruct (drawPoints 0 landmarks) as [[] | []] eqn:E; [| reflexivity].
      exfalso. apply (proj1 Hok eq_refl j Hj Hn).
  - exact Hok.
  - intros Hlen. apply Hok. intros j Hj Hn.
    assert (nth_error landmarks j <> None) by congruence.
    apply nth_error_Some in H. lia.
Qed.

Lemma drawPose_throws_iff_witness :
  drawPose truncatedPose = Ok tt /\
  drawPose (repeat (Elem (Some (mkLandmark 0 0))) 12 ++ [Hole; Elem None]) =
    Throw TypeError.
Proof.
  split.
  - apply (proj2 (proj1 (proj2 (drawPose_throws_iff truncatedPose)))).
    intros j Hj. unfold truncatedPose.
    intros Hn. apply nth_error_In in Hn. apply repeat_spec in Hn. discriminate.
  - apply (proj2 (proj1 (drawPose_throws_iff _))).
    exists 13%nat. split; [lia | reflexivity].
Defined.

(** X15: A frame with a landmark array goes through exactly when the seven
    joints that are measured are landmarks and no element with an index from
    11 to 28 is [undefined] or [null]; among the joints that are only drawn
    a hole does no harm. *)
Theorem onPoseResults_succeeds_iff (landmarks : list Slot) (st : State) :
  fst (onPoseResults (mkResults (Some landmarks)) st) = Ok tt <->
  (forall i, In i requiredJoints -> index landmarks i <> None) /\
  (forall j, (11 <= j <= 28)%nat -> nth_error landmarks j <> Some (Elem None)).
Proof.
  rewrite (onPoseResults_some (mkResults (Some landmarks)) landmarks st eq_refl).
  destruct (drawPose_throws_iff landmarks) as (_ & Hdraw & _).
  split.
  - intros Hok.
    destruct (drawPose landmarks) as [[] | e] eqn:Ed; [| discriminate Hok].
    destruct (frameMetrics landmarks) as [fm | []] eqn:Ef;
      [| rewrite (analyze_throw _ _ Ef) in Hok; discriminate Hok].
    split; [| apply Hdraw; reflexivity].
    destruct (frameMetrics_ok_inv _ _ Ef)
      as (ls & rs & re & rw & rh & rk & ra & H11 & H12 & H14 & H16 & H24 & H26 & H28).
    intros i Hi. cbn [requiredJoints In] in Hi.
    repeat (destruct Hi as [<- | Hi]; [congruence |]). contradiction.
  - intros [Hjoints Hrest].
    rewrite (proj2 Hdraw Hrest).
    destruct (frameMetrics_present landmarks Hjoints) as (fm & Hfm).
    destruct (analyze_ok landmarks fm st Hfm) as (d' & -> & _). reflexivity.
Qed.

Lemma onPoseResults_succeeds_iff_witness :
  fst (onPoseResults (mkResults (Some (samplePose (1 / 2)))) (initialState blankPage)) =
  Ok tt.
Proof.
  apply (proj2 (onPoseResults_succeeds_iff (samplePose (1 / 2)) (initialState blankPage))).
  split.
  - intros i Hi. cbn [requiredJoints In] in Hi.
    repeat (destruct Hi as [<- | Hi]; [discriminate |]). contradiction.
  - intros j Hj Hn. unfold samplePose in Hn. apply nth_error_In in Hn.
    apply in_app_or in Hn. destruct Hn as [Hn | Hn].
    + apply repeat_spec in Hn. discriminate.
    + apply in_app_or in Hn. destruct Hn as [[Hn | []] | Hn]; [discriminate |].
      apply repeat_spec in Hn. discriminate.
Defined.

(** ** The discs of the skeleton *)

Lemma drawLandmarks_drawPoints (cw ch : R) (landmarks : list Slot) (i : nat) :
  drawPoints i landmarks =
  (_ <- drawLandmarks cw ch i landmarks ;; Ok tt)%outcome.
Proof.
  revert i. induction landmarks as [| s rest IH]; intros i; [reflexivity |].
  cbn [drawPoints drawLandmarks]. destruct s as [| l]; [apply IH |].
  destruct (Nat.ltb 10 i && Nat.ltb i 29); [| apply IH].
  destruct l as [p |]; cbn [obind prop_x prop_y]; [| reflexivity].
  rewrite IH. destruct (drawLandmarks cw ch (S i) rest); reflexivity.
Qed.

Lemma drawLandmarks_discs (cw ch : R) (landmarks : list Slot) (i : nat)
      (discs : list Disc) :
  drawLandmarks cw ch i landmarks = Ok discs ->
  discs =
    map (fun l => mkDisc (x l * cw) (y l * ch) 6)
        (flat_map (fun s => match s with Elem (Some l) => [l] | _ => [] end)
                  (firstn (29 - Nat.max i 11) (skipn (11 - i) landmarks))).
Proof.
  revert i discs. induction landmarks as [| s rest IH]; intros i discs.
  - cbn [drawLandmarks]. intros H. injection H as <-.
    rewrite skipn_nil, firstn_nil. reflexivity.
  - assert (Hstep : forall more,
              drawLandmarks cw ch (S i) rest = Ok more ->
              ~ (10 < i < 29)%nat \/ s = Hole ->
              more =
                map (fun l => mkDisc (x l * cw) (y l * ch) 6)
                    (flat_map (fun s => match s with Elem (Some l) => [l] | _ => [] end)
                       (firstn (29 - Nat.max i 11) (skipn (11 - i) (s :: rest))))).
    { intros more Hm Hcase. rewrite (IH _ _ Hm).
      destruct (Nat.le_gt_cases i 10) as [Hlow | Hhigh].
      - replace (11 - i)%nat with (S (11 - S i)) by lia. cbn [skipn].
        replace (Nat.max (S i) 11) with (Nat.max i 11) by lia. reflexivity.
      - replace (11 - i)%nat with 0%nat by lia.
        replace (11 - S i)%nat with 0%nat by lia. cbn [skipn].
        destruct (Nat.le_gt_cases 29 i) as [Hout | Hin].
        + replace (29 - Nat.max i 11)%nat with 0%nat by lia.
          replace (29 - Nat.max (S i) 11)%nat with 0%nat by lia. reflexivity.
        + destruct Hcase as [Hcase | ->]; [exfalso; apply Hcase; lia |].
          replace (29 - Nat.max i 11)%nat with (S (29 - Nat.max (S i) 11)) by lia.
          reflexivity. }
    cbn [drawLandmarks]. destruct s as [| l].
    + intros H. apply Hstep; [exact H | right; reflexivity].
    + destruct (Nat.ltb 10 i && Nat.ltb i 29) eqn:E.
      * apply andb_prop in E. destruct E as [E1 E2].
        apply Nat.ltb_lt in E1. apply Nat.ltb_lt in E2.
        destruct l as [p |]; cbn [obind prop_x prop_y]; [| discriminate].
        destruct (drawLandmarks cw ch (S i) rest) as [more |] eqn:Em; [| discriminate].
        cbn [obind]. intros H. injection H as <-.
        rewrite (IH _ _ Em).
        replace (11 - i)%nat with 0%nat by lia.
        replace (11 - S i)%nat with 0%nat by lia. cbn [skipn].
        replace (29 - Nat.max i 11)%nat with (S (29 - Nat.max (S i) 11)) by lia.
        reflexivity.
      * intros H. apply Hstep; [exact H | left].
        intros [H1 H2]. apply Nat.ltb_lt in H1. apply Nat.ltb_lt in H2.
        rewrite H1, H2 in E. discriminate.
Qed.

Lemma flat_map_pick_length (l : list Slot) :
  (length (flat_map (fun s => match s with Elem (Some p) => [p] | _ => [] end) l)
   <= length l)%nat.
Proof.
  induction l as [| [| [p |]] l IH]; cbn [flat_map app length]; lia.
Qed.

(** X17: What [drawPose] puts on the canvas.  The loop over the connection
    table never throws: it draws one line for each connection whose two
    landmarks are there, at most 12, each between the two landmarks scaled to
    the canvas.  When [drawPose] returns, it has drawn one disc of radius 6
    on each landmark that the array holds at an index from 11 to 28, in
    order and scaled to the canvas, at most 18; when the drawing of the discs
    throws, so does [drawPose]. *)
Theorem drawPose_on_canvas (cw ch : R) (landmarks : list Slot) :
  (exists segments,
     drawConnections cw ch landmarks connections = Ok segments /\
     (length segments <= 12)%nat /\
     length segments =
       length (filter (fun c => truthy (index landmarks (fst c)) &&
                                truthy (index landmarks (snd c))) connections) /\
     Forall (fun s => exists a b p q,
                 In (a, b) connections /\
                 index landmarks a = Some p /\ index landmarks b = Some q /\
                 s = mkSegment (x p * cw) (y p * ch) (x q * cw) (y q * ch))
            segments) /\
  (drawPose landmarks = Ok tt ->
   exists segments discs,
     drawPoseCanvas cw ch landmarks = Ok (segments, discs) /\
     discs =
       map (fun l => mkDisc (x l * cw) (y l * ch) 6)
           (flat_map (fun s => match s with Elem (Some l) => [l] | _ => [] end)
                     (firstn 18 (skipn 11 landmarks))) /\
     (length discs <= 18)%nat) /\
  (drawPose landmarks = Throw TypeError ->
   drawPoseCanvas cw ch landmarks = Throw TypeError).
Proof.
  destruct (drawConnections_ok cw ch landmarks connections)
    as (segments & Hrun & Hlen & Hall).
  split; [| split].
  - exists segments. split; [exact Hrun |]. split; [| split; assumption].
    rewrite Hlen. apply (filter_length_le _ connections).
  - unfold drawPose, drawPoseCanvas.
    rewrite (drawLandmarks_drawPoints cw ch), Hrun. cbn [obind].
    destruct (drawLandmarks cw ch 0 landmarks) as [discs |] eqn:Ed; [| discriminate].
    intros _. exists segments, discs. split; [reflexivity |].
    pose proof (drawLandmarks_discs _ _ _ _ _ Ed) as Hd.
    cbn [Nat.max Nat.sub] in Hd. split; [exact Hd |].
    rewrite Hd, length_map.
    apply Nat.le_trans with (1 := flat_map_pick_length _).
    apply firstn_le_length.
  - unfold drawPose, drawPoseCanvas.
    rewrite (drawLandmarks_drawPoints cw ch), Hrun. cbn [obind].
    destruct (drawLandmarks cw ch 0 landmarks) as [discs | []]; [discriminate |].
    reflexivity.
Qed.

Lemma drawPose_on_canvas_witness :
  exists segments discs,
    drawPoseCanvas 1280 720 (samplePose (1 / 2)) = Ok (segments, discs) /\
    (length discs <= 18)%nat.
Proof.
  destruct (proj1 (proj2 (drawPose_on_canvas 1280 720 (samplePose (1 / 2))))
              eq_refl) as (segments & discs & Hrun & _ & Hlen).
  exists segments, discs. split; [exact Hrun | exact Hlen].
Defined.
